(** * The events endpoint of the OpenSea wrapper

    A shallow embedding of [open_sea_v1/endpoints/endpoint_events.py]:
    the two string enums, the [_EventsEndpoint] dataclass, its
    construction-time validators, the request it builds and the way it
    parses the response.  Python values are dynamically typed, so fields
    hold a [pyval]; a raised exception is the [Raise] branch of [result];
    validators run in a small error monad that also records which methods
    were entered. *)

From Stdlib Require Import ZArith QArith String List Bool Lia.
From stdpp Require Import base strings gmap.
Import ListNotations.

Local Open Scope string_scope.
Local Open Scope Z_scope.

(** * Part I: the program *)

(** ** Python values *)

(** [datetime.datetime].  [dt_wall] is the value of the naive fields
    (year ... microsecond) counted in microseconds; [dt_utcoffset] is
    [None] for a naive datetime and [Some off] for an aware one whose
    [utcoffset()] is [off] microseconds.  Time zones are the fixed-offset
    [datetime.timezone] objects, so one tzinfo object has one offset. *)
Record datetime := mk_datetime { dt_wall : Z; dt_utcoffset : option Z }.

(** The two enums of the module (both derive from [ExtendedStrEnum]). *)
Inductive EventType :=
  | CREATED | SUCCESSFUL | CANCELLED | BID_ENTERED | BID_WITHDRAWN | TRANSFER | APPROVE.

Inductive AuctionType := ENGLISH | DUTCH | MIN_PRICE.

Definition EventType_value (e : EventType) : string :=
  match e with
  | CREATED => "created"
  | SUCCESSFUL => "successful"
  | CANCELLED => "cancelled"
  | BID_ENTERED => "bid_entered"
  | BID_WITHDRAWN => "bid_withdrawn"
  | TRANSFER => "transfer"
  | APPROVE => "approve"
  end.

Definition AuctionType_value (a : AuctionType) : string :=
  match a with
  | ENGLISH => "english"
  | DUTCH => "dutch"
  | MIN_PRICE => "min-price"
  end.

Definition EventType_members : list EventType :=
  [CREATED; SUCCESSFUL; CANCELLED; BID_ENTERED; BID_WITHDRAWN; TRANSFER; APPROVE].

Definition AuctionType_members : list AuctionType := [ENGLISH; DUTCH; MIN_PRICE].

(** Modelled from the spec: [ExtendedStrEnum.list()] of
    [helpers/extended_classes.py], the list-of-valid-values query that
    validation uses: the values of the members, in declaration order. *)
Definition EventType_list : list string := map EventType_value EventType_members.

(** Modelled from the spec: [ExtendedStrEnum.list()] at [AuctionType]. *)
Definition AuctionType_list : list string := map AuctionType_value AuctionType_members.

(** The classes a value of this model can have. *)
Inductive pytype :=
  | TNoneType | TBool | TInt | TFloat | TStr | TEventType | TAuctionType | TDatetime | TType.

Inductive pyval :=
  | PNone
  | PBool (b : bool)
  | PInt (n : Z)
  | PFloat (x : Q)
  | PStr (s : string)
  | PEventType (e : EventType)
  | PAuctionType (a : AuctionType)
  | PDatetime (d : datetime)
  | PType (t : pytype).

(** [type(v)]. *)
Definition py_type (v : pyval) : pytype :=
  match v with
  | PNone => TNoneType
  | PBool _ => TBool
  | PInt _ => TInt
  | PFloat _ => TFloat
  | PStr _ => TStr
  | PEventType _ => TEventType
  | PAuctionType _ => TAuctionType
  | PDatetime _ => TDatetime
  | PType _ => TType
  end.

Definition pytype_eqb (t u : pytype) : bool :=
  match t, u with
  | TNoneType, TNoneType | TBool, TBool | TInt, TInt | TFloat, TFloat
  | TStr, TStr | TEventType, TEventType | TAuctionType, TAuctionType
  | TDatetime, TDatetime | TType, TType => true
  | _, _ => false
  end.

(** [issubclass t u]: [bool] derives from [int], and the members of a
    string enum are instances of [str]. *)
Definition issubclass (t u : pytype) : bool :=
  pytype_eqb t u ||
  match t, u with
  | TBool, TInt | TEventType, TStr | TAuctionType, TStr => true
  | _, _ => false
  end.

(** [isinstance(v, (c1, ..., cn))]. *)
Definition isinstance (v : pyval) (classes : list pytype) : bool :=
  existsb (issubclass (py_type v)) classes.

(** The string a string-like value holds. *)
Definition str_value (v : pyval) : option string :=
  match v with
  | PStr s => Some s
  | PEventType e => Some (EventType_value e)
  | PAuctionType a => Some (AuctionType_value a)
  | _ => None
  end.

(** [v in l] for a list [l] of strings: [==] against each element. *)
Definition py_in (v : pyval) (l : list string) : bool :=
  match str_value v with
  | Some s => existsb (String.eqb s) l
  | None => false
  end.

(** ** Exceptions *)

Inductive exn_kind := TypeError | ValueError | KeyError | AttributeError | JSONDecodeError.

(** A piece of an f-string: literal text, or [repr] of a value left
    symbolic.  [f"{self.x=}"] is the text [self.x=] followed by
    [repr(self.x)]. *)
Inductive frag := FText (s : string) | FRepr (v : pyval).

Record exn := mk_exn { exn_kind_of : exn_kind; exn_args : list (list frag) }.

Inductive result (A : Type) := Ok (a : A) | Raise (e : exn).
Arguments Ok {A} a.
Arguments Raise {A} e.

Definition is_ok {A} (r : result A) : bool :=
  match r with Ok _ => true | Raise _ => false end.

(** ** Comparing datetimes *)

(** [datetime._cmp]: -1, 0 or 1, or 2 for a naive/aware pair under
    [allow_mixed]; such a pair raises otherwise. *)
Definition datetime_cmp (allow_mixed : bool) (a b : datetime) : result Z :=
  let base_compare :=
    match dt_utcoffset a, dt_utcoffset b with
    | None, None => true
    | Some x, Some y => x =? y
    | _, _ => false
    end in
  if base_compare then
    Ok (match dt_wall a ?= dt_wall b with Lt => -1 | Eq => 0 | Gt => 1 end)
  else
    match dt_utcoffset a, dt_utcoffset b with
    | Some x, Some y =>
        let diff := (dt_wall a - x) - (dt_wall b - y) in
        Ok (if diff <? 0 then -1 else if diff =? 0 then 0 else 1)
    | _, _ =>
        if allow_mixed then Ok 2
        else Raise (mk_exn TypeError
                      [[FText "can't compare offset-naive and offset-aware datetimes"]])
    end.

(** [a == b] on datetimes: never raises. *)
Definition datetime_eq (a b : datetime) : bool :=
  match datetime_cmp true a b with
  | Ok c => c =? 0
  | Raise _ => false
  end.

(** [a < b] on datetimes. *)
Definition datetime_lt (a b : datetime) : result bool :=
  match datetime_cmp false a b with
  | Ok c => Ok (c <? 0)
  | Raise e => Raise e
  end.

(** ** Truth value, [==] and [<] on values *)

Definition as_number (v : pyval) : option Q :=
  match v with
  | PBool b => Some (if b then 1%Q else 0%Q)
  | PInt n => Some (inject_Z n)
  | PFloat x => Some x
  | _ => None
  end.

(** [bool(v)]: a datetime defines neither [__bool__] nor [__len__], so it
    is always true. *)
Definition truthy (v : pyval) : bool :=
  match v with
  | PNone => false
  | PBool b => b
  | PInt n => negb (n =? 0)
  | PFloat x => negb (Qeq_bool x 0)
  | PStr s => negb (String.eqb s EmptyString)
  | PEventType e => negb (String.eqb (EventType_value e) EmptyString)
  | PAuctionType a => negb (String.eqb (AuctionType_value a) EmptyString)
  | PDatetime _ => true
  | PType _ => true
  end.

Definition py_eq (v w : pyval) : bool :=
  match v, w with
  | PNone, PNone => true
  | PDatetime a, PDatetime b => datetime_eq a b
  | PType t, PType u => pytype_eqb t u
  | _, _ =>
      match as_number v, as_number w with
      | Some x, Some y => Qeq_bool x y
      | _, _ =>
          match str_value v, str_value w with
          | Some s, Some t => String.eqb s t
          | _, _ => false
          end
      end
  end.

Definition type_name (t : pytype) : string :=
  match t with
  | TNoneType => "NoneType"
  | TBool => "bool"
  | TInt => "int"
  | TFloat => "float"
  | TStr => "str"
  | TEventType => "EventType"
  | TAuctionType => "AuctionType"
  | TDatetime => "datetime.datetime"
  | TType => "type"
  end.

Definition py_lt (v w : pyval) : result bool :=
  match v, w with
  | PDatetime a, PDatetime b => datetime_lt a b
  | _, _ =>
      match as_number v, as_number w with
      | Some x, Some y => Ok (negb (Qle_bool y x))
      | _, _ =>
          match str_value v, str_value w with
          | Some s, Some t => Ok (String.ltb s t)
          | _, _ =>
              Raise (mk_exn TypeError
                       [[FText ("'<' not supported between instances of '"
                                ++ type_name (py_type v) ++ "' and '"
                                ++ type_name (py_type w) ++ "'")]])
          end
      end
  end.

(** ** The monads of the module *)

(** The methods of [_EventsEndpoint] that validation can enter. *)
Inductive method :=
  | M_validate_request_params
  | M_validate_param_auction_type
  | M_validate_param_event_type
  | M_validate_params_occurred_before_and_occurred_after
  | M_validate_param_occurred_before
  | M_validate_param_occurred_after
  | M_assert_param_occurred_before_after_cannot_be_same_value
  | M_assert_param_occurred_before_cannot_be_higher_than_occurred_after.

(** A computation that returns or raises, together with the methods it
    entered, in order. *)
Definition traced (A : Type) : Type := (list method * result A)%type.

#[global] Instance traced_ret : MRet traced := fun A x => ([], Ok x).

#[global] Instance traced_bind : MBind traced := fun A B f m =>
  match m with
  | (t, Ok x) => let '(t', r) := f x in ((t ++ t')%list, r)
  | (t, Raise e) => (t, Raise e)
  end.

#[global] Instance traced_throw : MThrow exn traced := fun A e => ([], Raise e).

(** Entering method [m] and running its body. *)
Definition call {A} (m : method) (body : traced A) : traced A :=
  (m :: fst body, snd body).

(** An expression that may raise, evaluated inside a method. *)
Definition lift {A} (r : result A) : traced A := ([], r).

(** The methods a computation entered, and how it ended. *)
Definition calls {A} (c : traced A) : list method := fst c.

Definition outcome {A} (c : traced A) : result A := snd c.

#[global] Instance result_ret : MRet result := fun A x => Ok x.

#[global] Instance result_bind : MBind result := fun A B k r =>
  match r with Ok x => k x | Raise e => Raise e end.

(** ** The endpoint object *)

(** The value [Response.json()] returns: JSON decoded into Python
    objects.  A decoded object is a [dict], so the keys of [JDict] are
    distinct; it keeps the order of the body. *)
#[warnings="-register-all"]
Inductive pyjson :=
  | JNone
  | JBoolean (b : bool)
  | JInt (n : Z)
  | JFloat (x : Q)
  | JStr (s : string)
  | JList (items : list pyjson)
  | JDict (members : list (string * pyjson)).

(** [requests.Response], as far as the endpoint reads it: [json()]
    decodes the body or raises. *)
Record Response := mk_Response { status_code : Z; body_json : option pyjson }.

Record _ClientParams := mk_ClientParams { offset : pyval; limit : pyval }.

(** The dataclass.  [client_params] defaults to [None]; [_http_response]
    is the attribute [_get_request] sets. *)
Record _EventsEndpoint := mk_EventsEndpoint {
  client_params : option _ClientParams;
  asset_contract_address : pyval;
  token_id : pyval;
  collection_slug : pyval;
  account_address : pyval;
  occurred_before : pyval;
  occurred_after : pyval;
  event_type : pyval;
  auction_type : pyval;
  only_opensea : pyval;
  _http_response : option Response
}.

(** The field defaults of the dataclass. *)
Definition defaults : _EventsEndpoint :=
  {| client_params := None; asset_contract_address := PNone; token_id := PNone;
     collection_slug := PNone; account_address := PNone; occurred_before := PNone;
     occurred_after := PNone; event_type := PNone; auction_type := PNone;
     only_opensea := PBool false; _http_response := None |}.

(** ** Validation *)

Definition _validate_param_event_type (self : _EventsEndpoint) : traced unit :=
  call M_validate_param_event_type (
    (if negb (isinstance (event_type self) [TStr; TEventType]) then
       mthrow (mk_exn TypeError
                 [[FText "Invalid event_type type. Must be str or EventType Enum."];
                  [FText "self.event_type="; FRepr (event_type self)]])
     else mret tt) ;;
    if negb (py_in (event_type self) EventType_list) then
      mthrow (mk_exn ValueError
                [[FText "Invalid event_type value. Must be str value from EventType Enum."];
                 [FText "self.event_type="; FRepr (event_type self)]])
    else mret tt).

Definition _validate_param_auction_type (self : _EventsEndpoint) : traced unit :=
  call M_validate_param_auction_type (
    match auction_type self with
    | PNone => mret tt
    | _ =>
      (if negb (isinstance (auction_type self) [TStr; TAuctionType]) then
         mthrow (mk_exn TypeError
                   [[FText "Invalid auction_type type. Must be str or AuctionType Enum."];
                    [FText "self.auction_type="; FRepr (auction_type self)]])
       else mret tt) ;;
      if negb (py_in (auction_type self) AuctionType_list) then
        mthrow (mk_exn ValueError
                  [[FText "Invalid auction_type value. Must be str value from AuctionType Enum."];
                   [FText "self.auction_type="; FRepr (auction_type self)]])
      else mret tt
    end).

Definition _validate_param_occurred_before (self : _EventsEndpoint) : traced unit :=
  call M_validate_param_occurred_before (
    if negb (isinstance (occurred_before self) [TNoneType; TDatetime]) then
      mthrow (mk_exn TypeError
                [[FText "Invalid occurred_before type. Must be instance of datetime."];
                 [FText "type(self.occurred_before)=";
                  FRepr (PType (py_type (occurred_before self)))]])
    else mret tt).

Definition _validate_param_occurred_after (self : _EventsEndpoint) : traced unit :=
  call M_validate_param_occurred_after (
    if negb (isinstance (occurred_after self) [TNoneType; TDatetime]) then
      mthrow (mk_exn TypeError
                [[FText "Invalid occurred_after type. Must be instance of datetime."];
                 [FText "type(self.occurred_after)=";
                  FRepr (PType (py_type (occurred_after self)))]])
    else mret tt).

Definition _assert_param_occurred_before_after_cannot_be_same_value
    (self : _EventsEndpoint) : traced unit :=
  call M_assert_param_occurred_before_after_cannot_be_same_value (
    if py_eq (occurred_after self) (occurred_before self) then
      mthrow (mk_exn ValueError
                [[FText "Params occurred_after and occurred_before may not have the same value."];
                 [FText "self.occurred_before="; FRepr (occurred_before self);
                  FText ", self.occurred_after="; FRepr (occurred_after self)]])
    else mret tt).

Definition _assert_param_occurred_before_cannot_be_higher_than_occurred_after
    (self : _EventsEndpoint) : traced unit :=
  call M_assert_param_occurred_before_cannot_be_higher_than_occurred_after (
    lt ← lift (py_lt (occurred_after self) (occurred_before self));
    if negb lt then
      mthrow (mk_exn ValueError
                [[FText "Param occurred_before cannot be higher than param occurred_after."];
                 [FText "self.occurred_before="; FRepr (occurred_before self);
                  FText ", self.occurred_after="; FRepr (occurred_after self)]])
    else mret tt).

Definition _validate_params_occurred_before_and_occurred_after
    (self : _EventsEndpoint) : traced unit :=
  call M_validate_params_occurred_before_and_occurred_after (
    _validate_param_occurred_before self ;;
    _validate_param_occurred_after self ;;
    if truthy (occurred_after self) && truthy (occurred_before self) then
      _assert_param_occurred_before_after_cannot_be_same_value self ;;
      _assert_param_occurred_before_cannot_be_higher_than_occurred_after self
    else mret tt).

Definition _validate_request_params (self : _EventsEndpoint) : traced unit :=
  call M_validate_request_params (
    _validate_param_auction_type self ;;
    _validate_param_event_type self ;;
    _validate_params_occurred_before_and_occurred_after self).

Definition __post_init__ (self : _EventsEndpoint) : traced unit :=
  _validate_request_params self.

(** The object [__init__] leaves behind: the fields as given and no
    response yet ([_http_response] is not a field). *)
Definition fresh (f : _EventsEndpoint) : _EventsEndpoint :=
  {| client_params := client_params f;
     asset_contract_address := asset_contract_address f;
     token_id := token_id f;
     collection_slug := collection_slug f;
     account_address := account_address f;
     occurred_before := occurred_before f;
     occurred_after := occurred_after f;
     event_type := event_type f;
     auction_type := auction_type f;
     only_opensea := only_opensea f;
     _http_response := None |}.

(** The [__init__] that [@dataclass] generates: store the fields, then
    run [__post_init__]; an exception leaves the caller without an
    object. *)
Definition __init__ (fields : _EventsEndpoint) : traced _EventsEndpoint :=
  let self := fresh fields in
  __post_init__ self ;; mret self.

(** Constructing an endpoint: the object, or the exception raised. *)
Definition construct (fields : _EventsEndpoint) : result _EventsEndpoint :=
  outcome (__init__ fields).

(** ** Request and response *)

Fixpoint assoc {A} (key : string) (members : list (string * A)) : option A :=
  match members with
  | [] => None
  | (k, v) :: rest => if String.eqb k key then Some v else assoc key rest
  end.

(** [j[key]] for a string [key]. *)
Definition getitem (j : pyjson) (key : string) : result pyjson :=
  match j with
  | JDict members =>
      match assoc key members with
      | Some v => Ok v
      | None => Raise (mk_exn KeyError [[FText key]])
      end
  | JList _ =>
      Raise (mk_exn TypeError [[FText "list indices must be integers or slices, not str"]])
  | JStr _ => Raise (mk_exn TypeError [[FText "string indices must be integers"]])
  | JNone => Raise (mk_exn TypeError [[FText "'NoneType' object is not subscriptable"]])
  | JBoolean _ => Raise (mk_exn TypeError [[FText "'bool' object is not subscriptable"]])
  | JInt _ => Raise (mk_exn TypeError [[FText "'int' object is not subscriptable"]])
  | JFloat _ => Raise (mk_exn TypeError [[FText "'float' object is not subscriptable"]])
  end.

(** A Python [str] is held as its UTF-8 encoding, one [ascii] per byte.
    A byte of the form 10xxxxxx continues the code point that the byte
    before it began or continued. *)
Definition is_continuation_byte (c : Ascii.ascii) : bool :=
  match c with
  | Ascii.Ascii _ _ _ _ _ _ b6 b7 => b7 && negb b6
  end.

Definition starts_with_continuation (s : string) : bool :=
  match s with
  | String d _ => is_continuation_byte d
  | EmptyString => false
  end.

(** The characters of a [str], in order: each one is a leading byte with
    the continuation bytes that follow it. *)
Fixpoint code_points (s : string) : list string :=
  match s with
  | EmptyString => []
  | String c rest =>
      match code_points rest with
      | g :: gs =>
          if starts_with_continuation rest then String c g :: gs
          else String c EmptyString :: g :: gs
      | [] => [String c EmptyString]
      end
  end.

(** The elements a [for] loop over [j] visits: the items of a list, the
    keys of a dict, the characters (code points) of a string. *)
Definition iterate (j : pyjson) : result (list pyjson) :=
  match j with
  | JList items => Ok items
  | JDict members => Ok (map (fun kv => JStr (fst kv)) members)
  | JStr s => Ok (map JStr (code_points s))
  | JNone => Raise (mk_exn TypeError [[FText "'NoneType' object is not iterable"]])
  | JBoolean _ => Raise (mk_exn TypeError [[FText "'bool' object is not iterable"]])
  | JInt _ => Raise (mk_exn TypeError [[FText "'int' object is not iterable"]])
  | JFloat _ => Raise (mk_exn TypeError [[FText "'float' object is not iterable"]])
  end.

(** [Response.json()]. *)
Definition Response_json (r : Response) : result pyjson :=
  match body_json r with
  | Some j => Ok j
  | None => Raise (mk_exn JSONDecodeError [[FText "Expecting value"]])
  end.

(** One HTTP call, as the transport sees it. *)
Inductive http_verb := GET | POST.

Record http_call := mk_http_call {
  call_verb : http_verb;
  call_url : string;
  call_params : gmap string pyval
}.

(** [self._http_response = resp]. *)
Definition set_http_response (self : _EventsEndpoint) (resp : Response) : _EventsEndpoint :=
  {| client_params := client_params self;
     asset_contract_address := asset_contract_address self;
     token_id := token_id self;
     collection_slug := collection_slug self;
     account_address := account_address self;
     occurred_before := occurred_before self;
     occurred_after := occurred_after self;
     event_type := event_type self;
     auction_type := auction_type self;
     only_opensea := only_opensea self;
     _http_response := Some resp |}.

(** The [params] dictionary of [_get_request]. *)
Definition request_params (self : _EventsEndpoint) (cp : _ClientParams) : gmap string pyval :=
  list_to_map
    [("offset", offset cp);
     ("limit", limit cp);
     ("asset_contract_address", asset_contract_address self);
     ("event_type", event_type self);
     ("only_opensea", only_opensea self);
     ("collection_slug", collection_slug self);
     ("token_id", token_id self);
     ("account_address", account_address self);
     ("auction_type", auction_type self);
     ("occurred_before", occurred_before self);
     ("occurred_after", occurred_after self)].

Section Collaborators.

(** [OpenseaApiEndpoints.EVENTS.value] of [endpoint_urls.py], which is
    not among the sources. *)
Variable EVENTS_value : string.

(** The transport: the answer to a GET of a URL with query parameters, or
    the exception the transport raises. *)
Variable perform_get : string -> gmap string pyval -> result Response.

(** The class [EventResponse] of [open_sea_v1.responses]: its instances,
    and its constructor applied to one decoded event. *)
Variable EventRecord : Type.
Variable EventResponse : pyjson -> EventRecord.

Definition url (self : _EventsEndpoint) : string := EVENTS_value.

(** Modelled from the spec: [BaseOpenSeaClient._get_request], which is
    not among the sources; the specification's transport capability
    [perform_get(url, params) -> response].  It issues one GET to the
    endpoint's [url] with the given query parameters, which [issued]
    records, and hands back the transport's answer or its exception. *)
Definition super_get_request (self : _EventsEndpoint) (params : gmap string pyval)
    (issued : list http_call) : list http_call * result Response :=
  ((issued ++ [mk_http_call GET (url self) params])%list, perform_get (url self) params).

(** [_get_request]: the object after the call and the response, with the
    calls issued so far threaded through. *)
Definition _get_request (self : _EventsEndpoint) (issued : list http_call)
    : list http_call * result (_EventsEndpoint * Response) :=
  match client_params self with
  | None =>
      (issued,
       Raise (mk_exn AttributeError [[FText "'NoneType' object has no attribute 'offset'"]]))
  | Some cp =>
      let params := request_params self cp in
      let '(issued', r) := super_get_request self params issued in
      match r with
      | Ok resp => (issued', Ok (set_http_response self resp, resp))
      | Raise e => (issued', Raise e)
      end
  end.

Definition parsed_http_response (self : _EventsEndpoint) : result (list EventRecord) :=
  match _http_response self with
  | None =>
      Raise (mk_exn AttributeError
               [[FText "'_EventsEndpoint' object has no attribute '_http_response'"]])
  | Some resp =>
      body ← Response_json resp;
      events_json ← getitem body "asset_events";
      items ← iterate events_json;
      mret (map EventResponse items)
  end.

(** The life of one query, as [create_and_get] of the tests drives it:
    nothing built yet, constructed and validated, request issued,
    response parsed; or ended by an exception. *)
Inductive stage :=
  | Unbuilt (fields : _EventsEndpoint)
  | Validated (self : _EventsEndpoint)
  | Requested (self : _EventsEndpoint)
  | Parsed (events : list EventRecord)
  | Failed (e : exn).

Inductive step : stage * list http_call -> stage * list http_call -> Prop :=
  | step_construct fields issued :
      step (Unbuilt fields, issued)
           (match construct fields with
            | Ok self => Validated self
            | Raise e => Failed e
            end, issued)
  | step_request self issued :
      step (Validated self, issued)
           (match _get_request self issued with
            | (issued', Ok (self', _)) => (Requested self', issued')
            | (issued', Raise e) => (Failed e, issued')
            end)
  | step_parse self issued :
      step (Requested self, issued)
           (match parsed_http_response self with
            | Ok events => Parsed events
            | Raise e => Failed e
            end, issued).

End Collaborators.

Arguments Unbuilt {EventRecord} fields.
Arguments Validated {EventRecord} self.
Arguments Requested {EventRecord} self.
Arguments Parsed {EventRecord} events.
Arguments Failed {EventRecord} e.

(** * Part II: the vocabulary of the specification *)

(** ** The validation rules *)

(** A string-like value: a [str], or a member of one of the string enums. *)
Definition string_like (v : pyval) : Prop :=
  match v with
  | PStr _ | PEventType _ | PAuctionType _ => True
  | _ => False
  end.

(** [v] is, by value, one of the EventType values. *)
Definition EventType_member (v : pyval) : Prop :=
  exists e : EventType, str_value v = Some (EventType_value e).

(** [v] is, by value, one of the AuctionType values. *)
Definition AuctionType_member (v : pyval) : Prop :=
  exists a : AuctionType, str_value v = Some (AuctionType_value a).

Definition absent (v : pyval) : Prop := v = PNone.

Definition is_datetime (v : pyval) : Prop := exists d, v = PDatetime d.

(** Chronological order on timestamps.  Two naive datetimes compare by
    their fields, two aware ones by their instants; a naive and an aware
    datetime are not ordered. *)
Definition strictly_before (a b : datetime) : Prop :=
  match dt_utcoffset a, dt_utcoffset b with
  | None, None => dt_wall a < dt_wall b
  | Some x, Some y => dt_wall a - x < dt_wall b - y
  | _, _ => False
  end.

Definition at_or_after (a b : datetime) : Prop :=
  match dt_utcoffset a, dt_utcoffset b with
  | None, None => dt_wall a >= dt_wall b
  | Some x, Some y => dt_wall a - x >= dt_wall b - y
  | _, _ => False
  end.

(** The validation rules, as the specification lists them. *)
Record valid (f : _EventsEndpoint) : Prop := mk_valid {
  valid_auction_type :
    absent (auction_type f) \/
    (string_like (auction_type f) /\ AuctionType_member (auction_type f));
  valid_event_type :
    string_like (event_type f) /\ EventType_member (event_type f);
  valid_occurred_before :
    absent (occurred_before f) \/ is_datetime (occurred_before f);
  valid_occurred_after :
    absent (occurred_after f) \/ is_datetime (occurred_after f);
  valid_order :
    forall a b, occurred_after f = PDatetime a -> occurred_before f = PDatetime b ->
                strictly_before a b
}.

(** The three check groups of [_validate_request_params]. *)
Definition is_group (m : method) : bool :=
  match m with
  | M_validate_param_auction_type
  | M_validate_param_event_type
  | M_validate_params_occurred_before_and_occurred_after => true
  | _ => false
  end.

Definition groups_run {A} (c : traced A) : list method :=
  List.filter is_group (calls c).

(** The earlier groups let the occurred-before/after group decide. *)
Definition earlier_groups_pass (f : _EventsEndpoint) : Prop :=
  outcome (_validate_param_auction_type f) = Ok tt /\
  outcome (_validate_param_event_type f) = Ok tt.

(** ** The exceptions the validators raise *)

Definition event_type_TypeError (v : pyval) : exn :=
  mk_exn TypeError
    [[FText "Invalid event_type type. Must be str or EventType Enum."];
     [FText "self.event_type="; FRepr v]].

Definition event_type_ValueError (v : pyval) : exn :=
  mk_exn ValueError
    [[FText "Invalid event_type value. Must be str value from EventType Enum."];
     [FText "self.event_type="; FRepr v]].

Definition auction_type_TypeError (v : pyval) : exn :=
  mk_exn TypeError
    [[FText "Invalid auction_type type. Must be str or AuctionType Enum."];
     [FText "self.auction_type="; FRepr v]].

Definition auction_type_ValueError (v : pyval) : exn :=
  mk_exn ValueError
    [[FText "Invalid auction_type value. Must be str value from AuctionType Enum."];
     [FText "self.auction_type="; FRepr v]].

Definition occurred_before_TypeError (v : pyval) : exn :=
  mk_exn TypeError
    [[FText "Invalid occurred_before type. Must be instance of datetime."];
     [FText "type(self.occurred_before)="; FRepr (PType (py_type v))]].

Definition occurred_after_TypeError (v : pyval) : exn :=
  mk_exn TypeError
    [[FText "Invalid occurred_after type. Must be instance of datetime."];
     [FText "type(self.occurred_after)="; FRepr (PType (py_type v))]].

Definition same_value_ValueError (before after : pyval) : exn :=
  mk_exn ValueError
    [[FText "Params occurred_after and occurred_before may not have the same value."];
     [FText "self.occurred_before="; FRepr before;
      FText ", self.occurred_after="; FRepr after]].

Definition higher_ValueError (before after : pyval) : exn :=
  mk_exn ValueError
    [[FText "Param occurred_before cannot be higher than param occurred_after."];
     [FText "self.occurred_before="; FRepr before;
      FText ", self.occurred_after="; FRepr after]].

(** What [datetime.__lt__] raises on a naive and an aware operand. *)
Definition naive_aware_TypeError : exn :=
  mk_exn TypeError [[FText "can't compare offset-naive and offset-aware datetimes"]].

(** ** What an exception tells about the offending field *)

Definition is_substring (needle hay : string) : bool :=
  match String.index 0 needle hay with Some _ => true | None => false end.

(** Some literal text of the arguments of [e] contains [field]. *)
Definition mentions (e : exn) (field : string) : Prop :=
  exists arg s, In arg (exn_args e) /\ In (FText s) arg /\ is_substring field s = true.

(** Some argument of [e] interpolates [repr v]. *)
Definition carries_value (e : exn) (v : pyval) : Prop :=
  exists arg, In arg (exn_args e) /\ In (FRepr v) arg.

(** ** The same-value assertion against the ordering assertion *)

(** The occurred-before/after group with the call of
    [_assert_param_occurred_before_after_cannot_be_same_value] removed:
    the validator the implemented one is compared with. *)
Definition _validate_params_occurred_before_and_occurred_after_without_same_value_check
    (self : _EventsEndpoint) : traced unit :=
  call M_validate_params_occurred_before_and_occurred_after (
    _validate_param_occurred_before self ;;
    _validate_param_occurred_after self ;;
    if truthy (occurred_after self) && truthy (occurred_before self) then
      _assert_param_occurred_before_cannot_be_higher_than_occurred_after self
    else mret tt).

(** The validator built on that group. *)
Definition _validate_request_params_without_same_value_check
    (self : _EventsEndpoint) : traced unit :=
  call M_validate_request_params (
    _validate_param_auction_type self ;;
    _validate_param_event_type self ;;
    _validate_params_occurred_before_and_occurred_after_without_same_value_check self).

(** ** The request *)

(** The names of the query parameters. *)
Definition query_parameter_names : list string :=
  ["offset"; "limit"; "asset_contract_address"; "event_type"; "only_opensea";
   "collection_slug"; "token_id"; "account_address"; "auction_type";
   "occurred_before"; "occurred_after"].

(** ** Sample inputs, after the test suite *)

Definition sample_contract : string := "0xb47e3cd837ddf8e4c57f05d70ab865de6e193bbb".

(** [events_default_kwargs] of the tests. *)
Definition events_default : _EventsEndpoint :=
  {| client_params := Some {| offset := PInt 0; limit := PInt 1 |};
     asset_contract_address := PStr sample_contract;
     token_id := PNone; collection_slug := PNone; account_address := PNone;
     occurred_before := PNone; occurred_after := PNone;
     event_type := PEventType SUCCESSFUL; auction_type := PNone;
     only_opensea := PBool false; _http_response := None |}.

Definition with_event_type (v : pyval) (f : _EventsEndpoint) : _EventsEndpoint :=
  {| client_params := client_params f;
     asset_contract_address := asset_contract_address f;
     token_id := token_id f; collection_slug := collection_slug f;
     account_address := account_address f;
     occurred_before := occurred_before f; occurred_after := occurred_after f;
     event_type := v; auction_type := auction_type f;
     only_opensea := only_opensea f; _http_response := _http_response f |}.

Definition with_auction_type (v : pyval) (f : _EventsEndpoint) : _EventsEndpoint :=
  {| client_params := client_params f;
     asset_contract_address := asset_contract_address f;
     token_id := token_id f; collection_slug := collection_slug f;
     account_address := account_address f;
     occurred_before := occurred_before f; occurred_after := occurred_after f;
     event_type := event_type f; auction_type := v;
     only_opensea := only_opensea f; _http_response := _http_response f |}.

Definition with_occurred (before after : pyval) (f : _EventsEndpoint) : _EventsEndpoint :=
  {| client_params := client_params f;
     asset_contract_address := asset_contract_address f;
     token_id := token_id f; collection_slug := collection_slug f;
     account_address := account_address f;
     occurred_before := before; occurred_after := after;
     event_type := event_type f; auction_type := auction_type f;
     only_opensea := only_opensea f; _http_response := _http_response f |}.

(** Naive datetimes a microsecond apart. *)
Definition dt_now : datetime := mk_datetime 63763459200000000 None.
Definition dt_later : datetime := mk_datetime 63763459200000001 None.

(** A response whose body holds one event. *)
Definition one_event_response : Response :=
  mk_Response 200
    (Some (JDict [("asset_events", JList [JDict [("event_type", JStr "successful")]])])).

Definition sample_events_url : string := "https://api.opensea.io/api/v1/events".

(** ** The characters of a string *)

(** The bytes of [s] that begin a character. *)
Fixpoint count_leading_bytes (s : string) : nat :=
  match s with
  | EmptyString => 0%nat
  | String c rest =>
      ((if is_continuation_byte c then 0 else 1) + count_leading_bytes rest)%nat
  end.

(** [s] does not begin in the middle of a character. *)
Definition begins_a_character (s : string) : Prop :=
  match s with
  | EmptyString => True
  | String c _ => is_continuation_byte c = false
  end.

(** The strings of [l] put end to end. *)
Definition join (l : list string) : string := fold_right String.append EmptyString l.

(** The euro sign, three bytes in UTF-8, and a string of two characters
    around it. *)
Definition euro : string := "€".

Definition price_in_euro : string := "5€".

(** ** The fields validation reads, and the state of a run *)

(** [f] and [g] agree on the four fields the validators read. *)
Definition same_validated_fields (f g : _EventsEndpoint) : Prop :=
  auction_type f = auction_type g /\ event_type f = event_type g /\
  occurred_before f = occurred_before g /\ occurred_after f = occurred_after g.

Definition is_naive (d : datetime) : Prop := dt_utcoffset d = None.

Definition is_aware (d : datetime) : Prop := exists off, dt_utcoffset d = Some off.

(** The GET that [_get_request] sends for the fields [f] under the client
    parameters [cp]. *)
Definition the_get (EVENTS_value : string) (f : _EventsEndpoint) (cp : _ClientParams)
    : http_call :=
  mk_http_call GET EVENTS_value (request_params (fresh f) cp).

(** What holds of a state of the life cycle started from the fields [f]
    with the calls [issued] already made: an object holds the fields of
    [f], which are valid; a call has been issued only from the request
    on, and then it is the one GET of [f]. *)
Definition life_cycle_invariant {EventRecord : Type} (EVENTS_value : string)
    (perform_get : string -> gmap string pyval -> result Response)
    (EventResponse : pyjson -> EventRecord)
    (f : _EventsEndpoint) (issued : list http_call)
    (p : stage EventRecord * list http_call) : Prop :=
  match fst p with
  | Unbuilt g => g = f /\ snd p = issued
  | Validated self => self = fresh f /\ valid f /\ snd p = issued
  | Requested self =>
      valid f /\
      exists cp resp,
        client_params f = Some cp /\
        perform_get EVENTS_value (request_params (fresh f) cp) = Ok resp /\
        self = set_http_response (fresh f) resp /\
        snd p = (issued ++ [the_get EVENTS_value f cp])%list
  | Parsed events =>
      valid f /\
      exists cp resp,
        client_params f = Some cp /\
        perform_get EVENTS_value (request_params (fresh f) cp) = Ok resp /\
        parsed_http_response EventRecord EventResponse
          (set_http_response (fresh f) resp) = Ok events /\
        snd p = (issued ++ [the_get EVENTS_value f cp])%list
  | Failed e =>
      snd p = issued \/
      (valid f /\
       exists cp, client_params f = Some cp /\
                  snd p = (issued ++ [the_get EVENTS_value f cp])%list)
  end.

(** An aware datetime, at UTC+02:00, for the samples. *)
Definition dt_aware : datetime := mk_datetime 63763459200000000 (Some 7200000000).

Definition with_client_params (cp : option _ClientParams) (f : _EventsEndpoint)
    : _EventsEndpoint :=
  {| client_params := cp;
     asset_contract_address := asset_contract_address f;
     token_id := token_id f; collection_slug := collection_slug f;
     account_address := account_address f;
     occurred_before := occurred_before f; occurred_after := occurred_after f;
     event_type := event_type f; auction_type := auction_type f;
     only_opensea := only_opensea f; _http_response := _http_response f |}.

(** * Part III: lemmas and theorems *)

(** ** Proof automation *)



(** ** The monad: how outcomes and traces compose *)

Lemma outcome_bind {A B} (m : traced A) (k : A -> traced B) :
  outcome (m ≫= k) =
  match outcome m with Ok x => outcome (k x) | Raise e => Raise e end.
Proof.
  destruct m as [t [x|e]]; cbn; [|reflexivity].
  destruct (k x); reflexivity.
Qed.

Lemma calls_bind {A B} (m : traced A) (k : A -> traced B) :
  calls (m ≫= k) =
  (calls m ++ match outcome m with Ok x => calls (k x) | Raise _ => [] end)%list.
Proof.
  destruct m as [t [x|e]]; cbn.
  - destruct (k x); reflexivity.
  - now rewrite app_nil_r.
Qed.

Lemma outcome_call {A} (m : method) (body : traced A) :
  outcome (call m body) = outcome body.
Proof. reflexivity. Qed.

Lemma calls_call {A} (m : method) (body : traced A) :
  calls (call m body) = m :: calls body.
Proof. reflexivity. Qed.

Lemma result_unit_ok (r : result unit) : is_ok r = true -> r = Ok tt.
Proof. destruct r as [[]|]; [reflexivity | discriminate]. Qed.

(** ** Membership in the enum value lists *)

Lemma py_in_EventType v : py_in v EventType_list = true <-> EventType_member v.
Proof.
  unfold py_in, EventType_member. destruct (str_value v) as [s|].
  - rewrite existsb_exists. split.
    + intros (x & Hin & Heq). apply String.eqb_eq in Heq. subst x.
      unfold EventType_list in Hin. apply in_map_iff in Hin.
      destruct Hin as (e & <- & _). now exists e.
    + intros (e & [= ->]). exists (EventType_value e). split.
      * unfold EventType_list. apply in_map. destruct e; cbn; tauto.
      * apply String.eqb_refl.
  - split; [discriminate | intros (e & He); discriminate].
Qed.

Lemma py_in_AuctionType v : py_in v AuctionType_list = true <-> AuctionType_member v.
Proof.
  unfold py_in, AuctionType_member. destruct (str_value v) as [s|].
  - rewrite existsb_exists. split.
    + intros (x & Hin & Heq). apply String.eqb_eq in Heq. subst x.
      unfold AuctionType_list in Hin. apply in_map_iff in Hin.
      destruct Hin as (a & <- & _). now exists a.
    + intros (a & [= ->]). exists (AuctionType_value a). split.
      * unfold AuctionType_list. apply in_map. destruct a; cbn; tauto.
      * apply String.eqb_refl.
  - split; [discriminate | intros (a & Ha); discriminate].
Qed.

Lemma isinstance_str_like v c :
  c = TEventType \/ c = TAuctionType ->
  isinstance v [TStr; c] = true <-> string_like v.
Proof. intros [-> | ->]; destruct v; cbn; intuition discriminate. Qed.

Lemma member_string_like_E v : EventType_member v -> string_like v.
Proof. intros (e & He). destruct v; cbn in *; try discriminate; exact I. Qed.

Lemma member_string_like_A v : AuctionType_member v -> string_like v.
Proof. intros (a & Ha). destruct v; cbn in *; try discriminate; exact I. Qed.

Lemma isinstance_datetime v :
  isinstance v [TNoneType; TDatetime] = true <-> absent v \/ is_datetime v.
Proof.
  unfold absent, is_datetime. destruct v; cbn; split; intros H;
    try discriminate; try reflexivity; eauto;
    destruct H as [H | (d' & H)]; discriminate.
Qed.

(** ** Outcome of each check *)

Lemma auction_type_outcome self :
  outcome (_validate_param_auction_type self) =
  match auction_type self with
  | PNone => Ok tt
  | v => if isinstance v [TStr; TAuctionType]
         then if py_in v AuctionType_list then Ok tt
              else Raise (auction_type_ValueError v)
         else Raise (auction_type_TypeError v)
  end.
Proof.
  unfold _validate_param_auction_type. rewrite outcome_call.
  destruct (auction_type self) eqn:E; try reflexivity;
    rewrite outcome_bind;
    match goal with |- context [py_in ?v ?l] => destruct (py_in v l) end;
    reflexivity.
Qed.

Lemma event_type_outcome self :
  outcome (_validate_param_event_type self) =
  let v := event_type self in
  if isinstance v [TStr; TEventType]
  then if py_in v EventType_list then Ok tt
       else Raise (event_type_ValueError v)
  else Raise (event_type_TypeError v).
Proof.
  unfold _validate_param_event_type. rewrite outcome_call, outcome_bind. cbv zeta.
  destruct (isinstance (event_type self) [TStr; TEventType]); [|reflexivity].
  destruct (py_in (event_type self) EventType_list); reflexivity.
Qed.

Lemma occurred_before_outcome self :
  outcome (_validate_param_occurred_before self) =
  if isinstance (occurred_before self) [TNoneType; TDatetime] then Ok tt
  else Raise (occurred_before_TypeError (occurred_before self)).
Proof.
  unfold _validate_param_occurred_before. rewrite outcome_call.
  destruct (isinstance _ _); reflexivity.
Qed.

Lemma occurred_after_outcome self :
  outcome (_validate_param_occurred_after self) =
  if isinstance (occurred_after self) [TNoneType; TDatetime] then Ok tt
  else Raise (occurred_after_TypeError (occurred_after self)).
Proof.
  unfold _validate_param_occurred_after. rewrite outcome_call.
  destruct (isinstance _ _); reflexivity.
Qed.

Lemma same_value_outcome self :
  outcome (_assert_param_occurred_before_after_cannot_be_same_value self) =
  if py_eq (occurred_after self) (occurred_before self)
  then Raise (same_value_ValueError (occurred_before self) (occurred_after self))
  else Ok tt.
Proof.
  unfold _assert_param_occurred_before_after_cannot_be_same_value.
  rewrite outcome_call. destruct (py_eq _ _); reflexivity.
Qed.

Lemma higher_outcome self :
  outcome (_assert_param_occurred_before_cannot_be_higher_than_occurred_after self) =
  match py_lt (occurred_after self) (occurred_before self) with
  | Ok true => Ok tt
  | Ok false => Raise (higher_ValueError (occurred_before self) (occurred_after self))
  | Raise e => Raise e
  end.
Proof.
  unfold _assert_param_occurred_before_cannot_be_higher_than_occurred_after.
  rewrite outcome_call, outcome_bind. unfold lift, outcome at 1. cbn [snd].
  destruct (py_lt _ _) as [[|]|]; reflexivity.
Qed.

Lemma occurred_outcome self :
  outcome (_validate_params_occurred_before_and_occurred_after self) =
  match outcome (_validate_param_occurred_before self) with
  | Raise e => Raise e
  | Ok _ =>
    match outcome (_validate_param_occurred_after self) with
    | Raise e => Raise e
    | Ok _ =>
      if truthy (occurred_after self) && truthy (occurred_before self) then
        match outcome (_assert_param_occurred_before_after_cannot_be_same_value self) with
        | Raise e => Raise e
        | Ok _ =>
            outcome (_assert_param_occurred_before_cannot_be_higher_than_occurred_after self)
        end
      else Ok tt
    end
  end.
Proof.
  unfold _validate_params_occurred_before_and_occurred_after.
  rewrite outcome_call, outcome_bind.
  destruct (outcome (_validate_param_occurred_before self)); [|reflexivity].
  rewrite outcome_bind.
  destruct (outcome (_validate_param_occurred_after self)); [|reflexivity].
  destruct (truthy _ && truthy _); [|reflexivity].
  now rewrite outcome_bind.
Qed.

Lemma validate_outcome self :
  outcome (_validate_request_params self) =
  match outcome (_validate_param_auction_type self) with
  | Raise e => Raise e
  | Ok _ =>
    match outcome (_validate_param_event_type self) with
    | Raise e => Raise e
    | Ok _ => outcome (_validate_params_occurred_before_and_occurred_after self)
    end
  end.
Proof.
  unfold _validate_request_params. rewrite outcome_call, outcome_bind.
  destruct (outcome (_validate_param_auction_type self)); [|reflexivity].
  now rewrite outcome_bind.
Qed.

Lemma construct_outcome f :
  construct f =
  match outcome (_validate_request_params (fresh f)) with
  | Ok _ => Ok (fresh f)
  | Raise e => Raise e
  end.
Proof.
  unfold construct, __init__, __post_init__.
  rewrite outcome_bind. destruct (outcome _); reflexivity.
Qed.

(** The checks read the fields only, so they cannot tell [f] from the
    object built from it. *)
Lemma validate_fresh f :
  outcome (_validate_request_params (fresh f)) = outcome (_validate_request_params f).
Proof. reflexivity. Qed.

(** ** Python's comparisons against chronological order *)

Lemma datetime_lt_strictly_before a b :
  datetime_lt a b = Ok true <-> strictly_before a b.
Proof.
  unfold datetime_lt, datetime_cmp, strictly_before.
  destruct (dt_utcoffset a) as [x|], (dt_utcoffset b) as [y|]; cbn.
  - destruct (Z.eqb_spec x y) as [->|Hxy].
    + destruct (Z.compare_spec (dt_wall a) (dt_wall b)); cbn;
        split; intros H0; try discriminate; try reflexivity; lia.
    + destruct (Z.ltb_spec (dt_wall a - x - (dt_wall b - y)) 0).
      * cbn. split; [lia | reflexivity].
      * destruct (Z.eqb_spec (dt_wall a - x - (dt_wall b - y)) 0); cbn;
          split; intros H0; try discriminate; lia.
  - split; [discriminate | tauto].
  - split; [discriminate | tauto].
  - destruct (Z.compare_spec (dt_wall a) (dt_wall b)); cbn;
      split; intros H0; try discriminate; try reflexivity; lia.
Qed.

Lemma datetime_lt_at_or_after a b :
  datetime_lt a b = Ok false <-> at_or_after a b.
Proof.
  unfold datetime_lt, datetime_cmp, at_or_after.
  destruct (dt_utcoffset a) as [x|], (dt_utcoffset b) as [y|]; cbn.
  - destruct (Z.eqb_spec x y) as [->|Hxy].
    + destruct (Z.compare_spec (dt_wall a) (dt_wall b)); cbn;
        split; intros H0; try discriminate; try reflexivity; lia.
    + destruct (Z.ltb_spec (dt_wall a - x - (dt_wall b - y)) 0).
      * cbn. split; [discriminate | lia].
      * destruct (Z.eqb_spec (dt_wall a - x - (dt_wall b - y)) 0); cbn;
          split; intros H0; try reflexivity; lia.
  - split; [discriminate | tauto].
  - split; [discriminate | tauto].
  - destruct (Z.compare_spec (dt_wall a) (dt_wall b)); cbn;
      split; intros H0; try discriminate; try reflexivity; lia.
Qed.

(** Equal datetimes are at the same point of the order, and [<] answers
    [False] on them. *)
Lemma datetime_eq_at_or_after a b : datetime_eq a b = true -> at_or_after a b.
Proof.
  unfold datetime_eq, datetime_cmp, at_or_after.
  destruct (dt_utcoffset a) as [x|], (dt_utcoffset b) as [y|]; cbn;
    try discriminate.
  - destruct (Z.eqb_spec x y) as [->|Hxy].
    + destruct (Z.compare_spec (dt_wall a) (dt_wall b)); cbn;
        intros H0; try discriminate; lia.
    + destruct (Z.ltb_spec (dt_wall a - x - (dt_wall b - y)) 0); cbn;
        [discriminate|].
      destruct (Z.eqb_spec (dt_wall a - x - (dt_wall b - y)) 0); cbn;
        intros H0; try discriminate; lia.
  - destruct (Z.compare_spec (dt_wall a) (dt_wall b)); cbn;
      intros H0; try discriminate; lia.
Qed.

Lemma datetime_eq_not_lt a b : datetime_eq a b = true -> datetime_lt a b = Ok false.
Proof. intros H. now apply datetime_lt_at_or_after, datetime_eq_at_or_after. Qed.

Lemma datetime_eq_refl a : datetime_eq a a = true.
Proof.
  unfold datetime_eq, datetime_cmp.
  destruct (dt_utcoffset a) as [x|]; cbn.
  - now rewrite Z.eqb_refl, Z.compare_refl.
  - now rewrite Z.compare_refl.
Qed.

Lemma strictly_before_not_eq a b : strictly_before a b -> datetime_eq a b = false.
Proof.
  intros H. destruct (datetime_eq a b) eqn:E; [|reflexivity].
  apply datetime_eq_not_lt in E. apply datetime_lt_strictly_before in H.
  congruence.
Qed.

(** The comparison raises exactly on a naive and an aware operand, and
    then with the library's own exception. *)
Lemma datetime_lt_raises a b e :
  datetime_lt a b = Raise e ->
  e = naive_aware_TypeError /\ ~ strictly_before a b /\ ~ at_or_after a b.
Proof.
  intros H. split; [|split].
  - revert H. unfold datetime_lt, datetime_cmp.
    destruct (dt_utcoffset a) as [x|], (dt_utcoffset b) as [y|]; cbn;
      try (intros [= <-]; reflexivity).
    destruct (x =? y); [discriminate|].
    repeat match goal with |- context [if ?c then _ else _] => destruct c end;
      discriminate.
  - intros Hs. apply datetime_lt_strictly_before in Hs. congruence.
  - intros Hs. apply datetime_lt_at_or_after in Hs. congruence.
Qed.

(** ** The occurred-before/after group on a pair of values *)

Lemma occurred_pair_outcome self a b :
  occurred_after self = PDatetime a -> occurred_before self = PDatetime b ->
  outcome (_validate_params_occurred_before_and_occurred_after self) =
  if datetime_eq a b then Raise (same_value_ValueError (PDatetime b) (PDatetime a))
  else match datetime_lt a b with
       | Ok true => Ok tt
       | Ok false => Raise (higher_ValueError (PDatetime b) (PDatetime a))
       | Raise e => Raise e
       end.
Proof.
  intros Ha Hb.
  rewrite occurred_outcome, occurred_before_outcome, occurred_after_outcome,
    same_value_outcome, higher_outcome, Ha, Hb.
  cbn. destruct (datetime_eq a b); reflexivity.
Qed.

Lemma occurred_one_absent self :
  (absent (occurred_after self) /\ (absent (occurred_before self) \/ is_datetime (occurred_before self))) \/
  (absent (occurred_before self) /\ (absent (occurred_after self) \/ is_datetime (occurred_after self))) ->
  outcome (_validate_params_occurred_before_and_occurred_after self) = Ok tt.
Proof.
  unfold absent, is_datetime.
  rewrite occurred_outcome, occurred_before_outcome, occurred_after_outcome.
  intros [[-> [-> | (d & ->)]] | [-> [-> | (d & ->)]]]; reflexivity.
Qed.

Lemma occurred_type_failure self :
  ~ (absent (occurred_before self) \/ is_datetime (occurred_before self)) \/
  ~ (absent (occurred_after self) \/ is_datetime (occurred_after self)) ->
  exists e, outcome (_validate_params_occurred_before_and_occurred_after self) = Raise e /\
            exn_kind_of e = TypeError /\
            (e = occurred_before_TypeError (occurred_before self) \/
             e = occurred_after_TypeError (occurred_after self)).
Proof.
  rewrite <- !isinstance_datetime.
  rewrite occurred_outcome, occurred_before_outcome, occurred_after_outcome.
  intros H.
  destruct (isinstance (occurred_before self) _) eqn:Eb.
  - destruct (isinstance (occurred_after self) _) eqn:Ea.
    + destruct H as [H | H]; now contradict H.
    + eexists; split; [reflexivity | split; [reflexivity | now right]].
  - eexists; split; [reflexivity | split; [reflexivity | now left]].
Qed.

Lemma auction_type_ok_iff self :
  outcome (_validate_param_auction_type self) = Ok tt <->
  absent (auction_type self) \/
  (string_like (auction_type self) /\ AuctionType_member (auction_type self)).
Proof.
  rewrite auction_type_outcome. unfold absent.
  pose proof (isinstance_str_like (auction_type self) TAuctionType (or_intror eq_refl)) as Hi.
  pose proof (py_in_AuctionType (auction_type self)) as Hm.
  destruct (auction_type self) eqn:E; try (split; [intros _; now left | reflexivity]);
    destruct (isinstance _ _), (py_in _ _); split; intros H;
    try reflexivity; try discriminate;
    try (right; split; [now apply Hi | now apply Hm]);
    destruct H as [H | [H1 H2]]; try discriminate;
    try (apply Hi in H1; discriminate); try (apply Hm in H2; discriminate).
Qed.

Lemma event_type_ok_iff self :
  outcome (_validate_param_event_type self) = Ok tt <->
  string_like (event_type self) /\ EventType_member (event_type self).
Proof.
  rewrite event_type_outcome. cbv zeta.
  pose proof (isinstance_str_like (event_type self) TEventType (or_introl eq_refl)) as Hi.
  pose proof (py_in_EventType (event_type self)) as Hm.
  destruct (isinstance _ _), (py_in _ _); split; intros H;
    try reflexivity; try discriminate;
    try (split; [now apply Hi | now apply Hm]);
    destruct H as [H1 H2];
    try (apply Hi in H1; discriminate); try (apply Hm in H2; discriminate).
Qed.

Lemma occurred_ok_iff self :
  outcome (_validate_params_occurred_before_and_occurred_after self) = Ok tt <->
  (absent (occurred_before self) \/ is_datetime (occurred_before self)) /\
  (absent (occurred_after self) \/ is_datetime (occurred_after self)) /\
  (forall a b, occurred_after self = PDatetime a -> occurred_before self = PDatetime b ->
               strictly_before a b).
Proof.
  split.
  - intros H.
    assert (Hb : absent (occurred_before self) \/ is_datetime (occurred_before self)).
    { destruct (isinstance (occurred_before self) [TNoneType; TDatetime]) eqn:E.
      - now apply isinstance_datetime.
      - rewrite occurred_outcome, occurred_before_outcome, E in H. discriminate. }
    assert (Ha : absent (occurred_after self) \/ is_datetime (occurred_after self)).
    { destruct (isinstance (occurred_after self) [TNoneType; TDatetime]) eqn:E.
      - now apply isinstance_datetime.
      - rewrite occurred_outcome, occurred_before_outcome, occurred_after_outcome, E in H.
        destruct (isinstance (occurred_before self) _); discriminate. }
    split; [exact Hb | split; [exact Ha |]].
    intros a b Ea Eb. rewrite (occurred_pair_outcome self a b Ea Eb) in H.
    destruct (datetime_eq a b); [discriminate|].
    destruct (datetime_lt a b) as [[|]|] eqn:El; try discriminate.
    now apply datetime_lt_strictly_before.
  - intros (Hb & Ha & Hord).
    destruct Ha as [Ha | (a & Ha)].
    + apply occurred_one_absent. left. now split.
    + destruct Hb as [Hb | (b & Hb)].
      * apply occurred_one_absent. right. split; [exact Hb | right; now exists a].
      * rewrite (occurred_pair_outcome self a b Ha Hb).
        specialize (Hord a b Ha Hb).
        rewrite (strictly_before_not_eq a b Hord).
        apply datetime_lt_strictly_before in Hord. now rewrite Hord.
Qed.

(** ** Construction against the validation rules *)

Lemma valid_iff_groups f :
  valid f <->
  outcome (_validate_param_auction_type f) = Ok tt /\
  outcome (_validate_param_event_type f) = Ok tt /\
  outcome (_validate_params_occurred_before_and_occurred_after f) = Ok tt.
Proof.
  rewrite auction_type_ok_iff, event_type_ok_iff, occurred_ok_iff.
  split.
  - intros [H1 H2 H3 H4 H5]. tauto.
  - intros (H1 & H2 & H3 & H4 & H5). now constructor.
Qed.

Lemma construct_groups f :
  construct f =
  match outcome (_validate_param_auction_type f) with
  | Raise e => Raise e
  | Ok _ =>
    match outcome (_validate_param_event_type f) with
    | Raise e => Raise e
    | Ok _ =>
      match outcome (_validate_params_occurred_before_and_occurred_after f) with
      | Raise e => Raise e
      | Ok _ => Ok (fresh f)
      end
    end
  end.
Proof.
  rewrite construct_outcome, validate_fresh, validate_outcome.
  destruct (outcome (_validate_param_auction_type f)); [|reflexivity].
  destruct (outcome (_validate_param_event_type f)); reflexivity.
Qed.

Lemma construct_ok_iff_valid f : construct f = Ok (fresh f) <-> valid f.
Proof.
  rewrite valid_iff_groups, construct_groups.
  destruct (outcome (_validate_param_auction_type f)) as [[]|];
    destruct (outcome (_validate_param_event_type f)) as [[]|];
    destruct (outcome (_validate_params_occurred_before_and_occurred_after f)) as [[]|];
    split; intros H; try discriminate; try reflexivity; try tauto;
    destruct H as (H1 & H2 & H3); discriminate.
Qed.

Lemma construct_ok_fresh f self : construct f = Ok self -> self = fresh f.
Proof.
  rewrite construct_outcome. destruct (outcome _); [|discriminate].
  now intros [= <-].
Qed.

Lemma events_default_valid : valid events_default.
Proof.
  constructor; cbn.
  - left. reflexivity.
  - split; [exact I | exists SUCCESSFUL; reflexivity].
  - left. reflexivity.
  - left. reflexivity.
  - intros a b H. discriminate H.
Defined.

Lemma randomstr_not_EventType : ~ EventType_member (PStr "randomstr").
Proof. intros (e & He). destruct e; discriminate He. Defined.

Lemma randomstr_not_AuctionType : ~ AuctionType_member (PStr "randomstr").
Proof. intros (a & Ha). destruct a; discriminate Ha. Defined.

(** C1: construction succeeds if and only if every validation rule holds
    (auction_type absent or a string-like AuctionType value, event_type a
    string-like EventType value, each timestamp absent or a datetime, and
    occurred_after strictly earlier than occurred_before when both are
    given); any violation raises at construction, and an object that is
    produced satisfies every rule. *)
Theorem construct_succeeds_iff_valid (f : _EventsEndpoint) :
  (construct f = Ok (fresh f) <-> valid f) /\
  (~ valid f -> exists e, construct f = Raise e) /\
  (forall self, construct f = Ok self -> self = fresh f /\ valid f /\ valid self).
Proof.
  split; [apply construct_ok_iff_valid | split].
  - intros Hnv. destruct (construct f) as [self|e] eqn:E; [|now exists e].
    exfalso. apply Hnv. apply construct_ok_iff_valid.
    now rewrite <- (construct_ok_fresh f self E).
  - intros self E. pose proof (construct_ok_fresh f self E) as ->.
    assert (Hv : valid f) by now apply construct_ok_iff_valid.
    split; [reflexivity | split; [exact Hv |]].
    destruct Hv as [H1 H2 H3 H4 H5]. now constructor.
Qed.

Lemma construct_succeeds_iff_valid_witness :
  construct events_default = Ok (fresh events_default) /\
  exists e, construct (with_event_type (PStr "randomstr") events_default) = Raise e.
Proof.
  split.
  - apply (proj2 (proj1 (construct_succeeds_iff_valid events_default))).
    exact events_default_valid.
  - apply (proj1 (proj2 (construct_succeeds_iff_valid
                           (with_event_type (PStr "randomstr") events_default)))).
    intros [_ [_ Hm] _ _ _]. exact (randomstr_not_EventType Hm).
Defined.

Lemma construct_after_earlier_groups f :
  earlier_groups_pass f ->
  construct f =
  match outcome (_validate_params_occurred_before_and_occurred_after f) with
  | Raise e => Raise e
  | Ok _ => Ok (fresh f)
  end.
Proof. intros [H1 H2]. now rewrite construct_groups, H1, H2. Qed.

Lemma construct_fails_with_occurred f e :
  outcome (_validate_params_occurred_before_and_occurred_after f) = Raise e ->
  is_ok (construct f) = false /\ (earlier_groups_pass f -> construct f = Raise e).
Proof.
  intros He. split.
  - rewrite construct_groups, He.
    destruct (outcome (_validate_param_auction_type f)); [|reflexivity].
    destruct (outcome (_validate_param_event_type f)); reflexivity.
  - intros Hp. now rewrite (construct_after_earlier_groups f Hp), He.
Qed.

(** A naive occurred_after against an aware occurred_before: both pass
    the type checks, [==] answers false, and [<] raises the TypeError of
    [datetime] itself. *)
Example naive_against_aware_raises :
  construct (with_occurred (PDatetime (mk_datetime 63763459200000000 (Some 0)))
                           (PDatetime dt_now) events_default) =
  Raise naive_aware_TypeError.
Proof. reflexivity. Qed.

(** C2: a present value of occurred_before or occurred_after that is not
    a timestamp fails with a TypeError; two timestamps that are equal, or
    with occurred_after at or after occurred_before, fail with a
    ValueError; occurred_after strictly before occurred_before passes.
    Each failure is the error of the occurred-before/after check, makes
    construction fail, and is the error construction raises once the
    auction-type and event-type checks, which run first, have passed;
    the passing case lets construction succeed once they have. *)
Theorem occurred_before_after_rules (f : _EventsEndpoint) :
  let check := outcome (_validate_params_occurred_before_and_occurred_after f) in
  ((~ (absent (occurred_before f) \/ is_datetime (occurred_before f)) \/
    ~ (absent (occurred_after f) \/ is_datetime (occurred_after f))) ->
   exists e, check = Raise e /\ exn_kind_of e = TypeError /\
             is_ok (construct f) = false /\
             (earlier_groups_pass f -> construct f = Raise e)) /\
  (forall a b,
     occurred_after f = PDatetime a -> occurred_before f = PDatetime b ->
     (datetime_eq a b = true ->
      exists e, check = Raise e /\ exn_kind_of e = ValueError /\
                is_ok (construct f) = false /\
                (earlier_groups_pass f -> construct f = Raise e)) /\
     (a = b -> datetime_eq a b = true) /\
     (at_or_after a b ->
      exists e, check = Raise e /\ exn_kind_of e = ValueError /\
                is_ok (construct f) = false /\
                (earlier_groups_pass f -> construct f = Raise e)) /\
     (strictly_before a b ->
      check = Ok tt /\ (earlier_groups_pass f -> construct f = Ok (fresh f)))).
Proof.
  cbv zeta. split.
  - intros H. destruct (occurred_type_failure f H) as (e & He & Hk & _).
    exists e. split; [exact He | split; [exact Hk |]].
    now apply construct_fails_with_occurred.
  - intros a b Ha Hb.
    pose proof (occurred_pair_outcome f a b Ha Hb) as Hout.
    split; [|split; [|split]].
    + intros Heq. rewrite Heq in Hout. eexists. split; [exact Hout |].
      split; [reflexivity |]. now apply construct_fails_with_occurred.
    + intros ->. apply datetime_eq_refl.
    + intros Hge. destruct (datetime_eq a b).
      * eexists. split; [exact Hout | split; [reflexivity |]].
        now apply construct_fails_with_occurred.
      * apply datetime_lt_at_or_after in Hge. rewrite Hge in Hout.
        eexists. split; [exact Hout | split; [reflexivity |]].
        now apply construct_fails_with_occurred.
    + intros Hlt. rewrite (strictly_before_not_eq a b Hlt) in Hout.
      apply datetime_lt_strictly_before in Hlt. rewrite Hlt in Hout.
      split; [exact Hout |].
      intros Hp. now rewrite (construct_after_earlier_groups f Hp), Hout.
Qed.

Lemma occurred_before_after_rules_witness :
  (exists e, construct (with_occurred (PBool true) PNone events_default) = Raise e /\
             exn_kind_of e = TypeError) /\
  (exists e, construct (with_occurred (PDatetime dt_now) (PDatetime dt_now) events_default)
             = Raise e /\ exn_kind_of e = ValueError) /\
  (exists e, construct (with_occurred (PDatetime dt_now) (PDatetime dt_later) events_default)
             = Raise e /\ exn_kind_of e = ValueError) /\
  construct (with_occurred (PDatetime dt_later) (PDatetime dt_now) events_default) =
    Ok (with_occurred (PDatetime dt_later) (PDatetime dt_now) events_default).
Proof.
  split; [|split; [|split]].
  - destruct (proj1 (occurred_before_after_rules
                       (with_occurred (PBool true) PNone events_default)))
      as (e & _ & Hk & _ & Hc).
    + left. intros [H | (d & H)]; discriminate H.
    + exists e. split; [apply Hc; split; reflexivity | exact Hk].
  - destruct (proj1 (proj2 (occurred_before_after_rules
                (with_occurred (PDatetime dt_now) (PDatetime dt_now) events_default))
                dt_now dt_now eq_refl eq_refl))
      as (e & _ & Hk & _ & Hc).
    + reflexivity.
    + exists e. split; [apply Hc; split; reflexivity | exact Hk].
  - destruct (proj1 (proj2 (proj2 (proj2 (occurred_before_after_rules
                (with_occurred (PDatetime dt_now) (PDatetime dt_later) events_default))
                dt_later dt_now eq_refl eq_refl))))
      as (e & _ & Hk & _ & Hc).
    + cbn. lia.
    + exists e. split; [apply Hc; split; reflexivity | exact Hk].
  - apply (proj2 (proj2 (proj2 (occurred_before_after_rules
                (with_occurred (PDatetime dt_later) (PDatetime dt_now) events_default))
                dt_now dt_later eq_refl eq_refl))).
    + cbn. lia.
    + split; reflexivity.
Defined.

(** C3: an event_type that is not string-like fails with a TypeError; a
    string-like one outside the EventType values fails with a ValueError;
    an absent event_type fails construction; an EventType value passes
    the check.  The failures are those of the event-type check, construction
    never succeeds on them, and it raises that very error once the
    auction-type check, which runs first, has passed. *)
Theorem event_type_rules (f : _EventsEndpoint) :
  let check := outcome (_validate_param_event_type f) in
  (~ string_like (event_type f) ->
   check = Raise (event_type_TypeError (event_type f)) /\
   exn_kind_of (event_type_TypeError (event_type f)) = TypeError /\
   is_ok (construct f) = false /\
   (outcome (_validate_param_auction_type f) = Ok tt ->
    construct f = Raise (event_type_TypeError (event_type f)))) /\
  (string_like (event_type f) -> ~ EventType_member (event_type f) ->
   check = Raise (event_type_ValueError (event_type f)) /\
   exn_kind_of (event_type_ValueError (event_type f)) = ValueError /\
   is_ok (construct f) = false /\
   (outcome (_validate_param_auction_type f) = Ok tt ->
    construct f = Raise (event_type_ValueError (event_type f)))) /\
  (absent (event_type f) ->
   check = Raise (event_type_TypeError PNone) /\ is_ok (construct f) = false) /\
  (EventType_member (event_type f) -> check = Ok tt).
Proof.
  cbv zeta.
  pose proof (isinstance_str_like (event_type f) TEventType (or_introl eq_refl)) as Hi.
  pose proof (py_in_EventType (event_type f)) as Hm.
  assert (Hfail : forall e, outcome (_validate_param_event_type f) = Raise e ->
            is_ok (construct f) = false /\
            (outcome (_validate_param_auction_type f) = Ok tt -> construct f = Raise e)).
  { intros e He. rewrite construct_groups, He.
    destruct (outcome (_validate_param_auction_type f)) as [[]|]; split;
      try reflexivity; discriminate. }
  assert (Htype : ~ string_like (event_type f) ->
            outcome (_validate_param_event_type f) =
            Raise (event_type_TypeError (event_type f))).
  { intros Hns. rewrite event_type_outcome. cbv zeta.
    destruct (isinstance _ _); [|reflexivity]. exfalso. now apply Hns, Hi. }
  split; [|split; [|split]].
  - intros Hns. specialize (Htype Hns). destruct (Hfail _ Htype). auto.
  - intros Hs Hnm.
    assert (Hv : outcome (_validate_param_event_type f) =
                 Raise (event_type_ValueError (event_type f))).
    { rewrite event_type_outcome. cbv zeta.
      apply Hi in Hs. rewrite Hs.
      destruct (py_in _ _); [|reflexivity]. exfalso. now apply Hnm, Hm. }
    destruct (Hfail _ Hv). auto.
  - unfold absent. intros Habs.
    assert (Hns : ~ string_like (event_type f)) by (rewrite Habs; cbn; tauto).
    specialize (Htype Hns). destruct (Hfail _ Htype) as [Hc _].
    rewrite Habs in Htype. auto.
  - intros Hmem. apply event_type_ok_iff. split; [|exact Hmem].
    now apply member_string_like_E.
Qed.

Lemma event_type_rules_witness :
  construct (with_event_type (PFloat 0) events_default) =
    Raise (event_type_TypeError (PFloat 0)) /\
  construct (with_event_type (PStr "randomstr") events_default) =
    Raise (event_type_ValueError (PStr "randomstr")) /\
  is_ok (construct (with_event_type PNone events_default)) = false /\
  outcome (_validate_param_event_type events_default) = Ok tt.
Proof.
  split; [|split; [|split]].
  - apply (proj1 (event_type_rules (with_event_type (PFloat 0) events_default))).
    + intros H. exact H.
    + reflexivity.
  - apply (proj1 (proj2 (event_type_rules
                           (with_event_type (PStr "randomstr") events_default)))).
    + exact I.
    + exact randomstr_not_EventType.
    + reflexivity.
  - apply (proj1 (proj2 (proj2 (event_type_rules (with_event_type PNone events_default))))).
    reflexivity.
  - apply (proj2 (proj2 (proj2 (event_type_rules events_default)))).
    exists SUCCESSFUL. reflexivity.
Defined.

(** C4: an absent auction_type passes the check; otherwise a value that
    is not string-like fails construction with a TypeError, a string-like
    value outside the AuctionType values fails it with a ValueError, and
    an AuctionType value passes (construction then succeeds when the two
    later checks pass as well). *)
Theorem auction_type_rules (f : _EventsEndpoint) :
  let check := outcome (_validate_param_auction_type f) in
  (absent (auction_type f) -> check = Ok tt) /\
  (~ absent (auction_type f) -> ~ string_like (auction_type f) ->
   check = Raise (auction_type_TypeError (auction_type f)) /\
   construct f = Raise (auction_type_TypeError (auction_type f)) /\
   exn_kind_of (auction_type_TypeError (auction_type f)) = TypeError) /\
  (string_like (auction_type f) -> ~ AuctionType_member (auction_type f) ->
   check = Raise (auction_type_ValueError (auction_type f)) /\
   construct f = Raise (auction_type_ValueError (auction_type f)) /\
   exn_kind_of (auction_type_ValueError (auction_type f)) = ValueError) /\
  (AuctionType_member (auction_type f) -> check = Ok tt) /\
  (absent (auction_type f) \/ AuctionType_member (auction_type f) ->
   outcome (_validate_param_event_type f) = Ok tt ->
   outcome (_validate_params_occurred_before_and_occurred_after f) = Ok tt ->
   construct f = Ok (fresh f)).
Proof.
  cbv zeta.
  pose proof (isinstance_str_like (auction_type f) TAuctionType (or_intror eq_refl)) as Hi.
  pose proof (py_in_AuctionType (auction_type f)) as Hm.
  assert (Hfail : forall e, outcome (_validate_param_auction_type f) = Raise e ->
            construct f = Raise e).
  { intros e He. now rewrite construct_groups, He. }
  split; [|split; [|split; [|split]]].
  - intros Habs. apply auction_type_ok_iff. now left.
  - unfold absent. intros Hpresent Hns.
    assert (Ht : outcome (_validate_param_auction_type f) =
                 Raise (auction_type_TypeError (auction_type f))).
    { rewrite auction_type_outcome.
      destruct (auction_type f); cbn in Hns; try reflexivity;
        solve [now contradict Hpresent | now contradict Hns]. }
    auto.
  - intros Hs Hnm.
    assert (Hv : outcome (_validate_param_auction_type f) =
                 Raise (auction_type_ValueError (auction_type f))).
    { rewrite auction_type_outcome.
      destruct (py_in (auction_type f) AuctionType_list) eqn:E.
      - exfalso. now apply Hnm, Hm.
      - destruct (auction_type f); cbn in Hs; try contradiction;
          cbn [isinstance py_type existsb issubclass pytype_eqb orb];
          now rewrite E. }
    auto.
  - intros Hmem. apply auction_type_ok_iff. right.
    split; [now apply member_string_like_A | exact Hmem].
  - intros Hok He Ho. apply construct_ok_iff_valid, valid_iff_groups.
    split; [|split; [exact He | exact Ho]].
    apply auction_type_ok_iff. destruct Hok as [Habs | Hmem]; [now left | right].
    split; [now apply member_string_like_A | exact Hmem].
Qed.

Lemma auction_type_rules_witness :
  outcome (_validate_param_auction_type events_default) = Ok tt /\
  construct (with_auction_type (PFloat 0) events_default) =
    Raise (auction_type_TypeError (PFloat 0)) /\
  construct (with_auction_type (PStr "randomstr") events_default) =
    Raise (auction_type_ValueError (PStr "randomstr")) /\
  construct (with_auction_type (PAuctionType DUTCH) events_default) =
    Ok (with_auction_type (PAuctionType DUTCH) events_default).
Proof.
  split; [|split; [|split]].
  - apply (proj1 (auction_type_rules events_default)). reflexivity.
  - apply (proj1 (proj2 (auction_type_rules (with_auction_type (PFloat 0) events_default)))).
    + intros H. discriminate H.
    + intros H. exact H.
  - apply (proj1 (proj2 (proj2 (auction_type_rules
                                  (with_auction_type (PStr "randomstr") events_default))))).
    + exact I.
    + exact randomstr_not_AuctionType.
  - apply (proj2 (proj2 (proj2 (proj2 (auction_type_rules
                    (with_auction_type (PAuctionType DUTCH) events_default)))))).
    + right. exists DUTCH. reflexivity.
    + reflexivity.
    + reflexivity.
Defined.

(** ** Which checks run *)

Lemma auction_type_calls self :
  calls (_validate_param_auction_type self) = [M_validate_param_auction_type].
Proof.
  unfold _validate_param_auction_type. rewrite calls_call. f_equal.
  destruct (auction_type self); try reflexivity; rewrite calls_bind;
    repeat match goal with |- context [if ?c then _ else _] => destruct c end;
    reflexivity.
Qed.

Lemma event_type_calls self :
  calls (_validate_param_event_type self) = [M_validate_param_event_type].
Proof.
  unfold _validate_param_event_type. rewrite calls_call, calls_bind. f_equal.
  repeat match goal with |- context [if ?c then _ else _] => destruct c end;
    reflexivity.
Qed.

Lemma occurred_before_calls self :
  calls (_validate_param_occurred_before self) = [M_validate_param_occurred_before].
Proof.
  unfold _validate_param_occurred_before. rewrite calls_call.
  destruct (negb _); reflexivity.
Qed.

Lemma occurred_after_calls self :
  calls (_validate_param_occurred_after self) = [M_validate_param_occurred_after].
Proof.
  unfold _validate_param_occurred_after. rewrite calls_call.
  destruct (negb _); reflexivity.
Qed.

Lemma same_value_calls self :
  calls (_assert_param_occurred_before_after_cannot_be_same_value self) =
  [M_assert_param_occurred_before_after_cannot_be_same_value].
Proof.
  unfold _assert_param_occurred_before_after_cannot_be_same_value.
  rewrite calls_call. destruct (py_eq _ _); reflexivity.
Qed.

Lemma higher_calls self :
  calls (_assert_param_occurred_before_cannot_be_higher_than_occurred_after self) =
  [M_assert_param_occurred_before_cannot_be_higher_than_occurred_after].
Proof.
  unfold _assert_param_occurred_before_cannot_be_higher_than_occurred_after.
  rewrite calls_call, calls_bind. unfold lift, calls at 1, outcome. cbn [fst snd].
  destruct (py_lt _ _) as [[|]|]; reflexivity.
Qed.

Lemma occurred_calls self :
  calls (_validate_params_occurred_before_and_occurred_after self) =
  M_validate_params_occurred_before_and_occurred_after ::
  M_validate_param_occurred_before ::
  (if is_ok (outcome (_validate_param_occurred_before self)) then
     M_validate_param_occurred_after ::
     (if is_ok (outcome (_validate_param_occurred_after self)) then
        if truthy (occurred_after self) && truthy (occurred_before self) then
          M_assert_param_occurred_before_after_cannot_be_same_value ::
          (if is_ok (outcome (_assert_param_occurred_before_after_cannot_be_same_value self))
           then [M_assert_param_occurred_before_cannot_be_higher_than_occurred_after]
           else [])
        else []
      else [])
   else []).
Proof.
  unfold _validate_params_occurred_before_and_occurred_after.
  rewrite calls_call, calls_bind, occurred_before_calls. cbn [app]. do 2 f_equal.
  destruct (outcome (_validate_param_occurred_before self)); [|reflexivity].
  cbn [is_ok]. rewrite calls_bind, occurred_after_calls. cbn [app]. f_equal.
  destruct (outcome (_validate_param_occurred_after self)); [|reflexivity].
  cbn [is_ok]. destruct (truthy _ && truthy _); [|reflexivity].
  rewrite calls_bind, same_value_calls. cbn [app]. f_equal.
  destruct (outcome (_assert_param_occurred_before_after_cannot_be_same_value self));
    [|reflexivity].
  cbn [is_ok]. apply higher_calls.
Qed.

Lemma filter_groups_occurred self :
  List.filter is_group (calls (_validate_params_occurred_before_and_occurred_after self)) =
  [M_validate_params_occurred_before_and_occurred_after].
Proof.
  rewrite occurred_calls. cbn.
  repeat match goal with |- context [if ?c then _ else _] => destruct c end;
    reflexivity.
Qed.

Lemma validate_groups_run self :
  groups_run (_validate_request_params self) =
  M_validate_param_auction_type ::
  (if is_ok (outcome (_validate_param_auction_type self)) then
     M_validate_param_event_type ::
     (if is_ok (outcome (_validate_param_event_type self)) then
        [M_validate_params_occurred_before_and_occurred_after]
      else [])
   else []).
Proof.
  unfold groups_run, _validate_request_params.
  rewrite calls_call, calls_bind, auction_type_calls. cbn [app List.filter is_group].
  f_equal.
  destruct (outcome (_validate_param_auction_type self)); [|reflexivity].
  cbn [is_ok]. rewrite calls_bind, event_type_calls. cbn [app List.filter is_group].
  f_equal.
  destruct (outcome (_validate_param_event_type self)); [|reflexivity].
  cbn [is_ok]. apply filter_groups_occurred.
Qed.

(** C5, as amended: the three check groups are entered in the order
    auction-type, event-type, occurred-before/after, and validation stops
    at the first group that raises: a group runs exactly when every
    earlier group passed, and the error of validation is the error of
    that first failing group.  Inside a group the checks also stop at the
    first failure. *)
Theorem validation_stops_at_first_failure (self : _EventsEndpoint) :
  groups_run (_validate_request_params self) =
    M_validate_param_auction_type ::
    (if is_ok (outcome (_validate_param_auction_type self)) then
       M_validate_param_event_type ::
       (if is_ok (outcome (_validate_param_event_type self)) then
          [M_validate_params_occurred_before_and_occurred_after]
        else [])
     else []) /\
  outcome (_validate_request_params self) =
    match outcome (_validate_param_auction_type self) with
    | Raise e => Raise e
    | Ok _ =>
      match outcome (_validate_param_event_type self) with
      | Raise e => Raise e
      | Ok _ => outcome (_validate_params_occurred_before_and_occurred_after self)
      end
    end /\
  calls (_validate_params_occurred_before_and_occurred_after self) =
    M_validate_params_occurred_before_and_occurred_after ::
    M_validate_param_occurred_before ::
    (if is_ok (outcome (_validate_param_occurred_before self)) then
       M_validate_param_occurred_after ::
       (if is_ok (outcome (_validate_param_occurred_after self)) then
          if truthy (occurred_after self) && truthy (occurred_before self) then
            M_assert_param_occurred_before_after_cannot_be_same_value ::
            (if is_ok (outcome (_assert_param_occurred_before_after_cannot_be_same_value self))
             then [M_assert_param_occurred_before_cannot_be_higher_than_occurred_after]
             else [])
          else []
        else [])
     else []) /\
  outcome (_validate_param_event_type self) =
    (if isinstance (event_type self) [TStr; TEventType]
     then if py_in (event_type self) EventType_list then Ok tt
          else Raise (event_type_ValueError (event_type self))
     else Raise (event_type_TypeError (event_type self))) /\
  outcome (_validate_param_auction_type self) =
    match auction_type self with
    | PNone => Ok tt
    | v => if isinstance v [TStr; TAuctionType]
           then if py_in v AuctionType_list then Ok tt
                else Raise (auction_type_ValueError v)
           else Raise (auction_type_TypeError v)
    end.
Proof.
  split; [apply validate_groups_run |].
  split; [apply validate_outcome |].
  split; [apply occurred_calls |].
  split; [apply event_type_outcome | apply auction_type_outcome].
Qed.

(** C5 as stated fails: with an auction_type of the wrong type and an
    event_type that is wrong as well, only the auction-type group runs;
    the event-type and occurred-before/after groups are never entered. *)
Lemma validation_not_all_groups_run :
  let bad := with_auction_type (PFloat 0) (with_event_type (PStr "randomstr") events_default) in
  outcome (_validate_param_auction_type bad) = Raise (auction_type_TypeError (PFloat 0)) /\
  outcome (_validate_param_event_type bad) = Raise (event_type_ValueError (PStr "randomstr")) /\
  calls (_validate_request_params bad) =
    [M_validate_request_params; M_validate_param_auction_type] /\
  groups_run (_validate_request_params bad) <>
    [M_validate_param_auction_type; M_validate_param_event_type;
     M_validate_params_occurred_before_and_occurred_after] /\
  ~ In M_validate_param_event_type (calls (_validate_request_params bad)) /\
  ~ In M_validate_params_occurred_before_and_occurred_after
       (calls (_validate_request_params bad)).
Proof.
  cbv zeta. repeat split; try reflexivity.
  - vm_compute. discriminate.
  - vm_compute. intros [H | [H | []]]; discriminate.
  - vm_compute. intros [H | [H | []]]; discriminate.
Qed.

(** ** What an exception tells about the offending field *)





(** The errors the occurred-before/after group can end with. *)
Lemma occurred_errors self e :
  outcome (_validate_params_occurred_before_and_occurred_after self) = Raise e ->
  e = occurred_before_TypeError (occurred_before self) \/
  e = occurred_after_TypeError (occurred_after self) \/
  e = same_value_ValueError (occurred_before self) (occurred_after self) \/
  e = higher_ValueError (occurred_before self) (occurred_after self) \/
  e = naive_aware_TypeError /\ is_datetime (occurred_before self) /\
  is_datetime (occurred_after self).
Proof.
  rewrite occurred_outcome, occurred_before_outcome, occurred_after_outcome,
    same_value_outcome, higher_outcome.
  destruct (isinstance (occurred_before self) _) eqn:Eb; [|intros [= <-]; auto].
  destruct (isinstance (occurred_after self) _) eqn:Ea; [|intros [= <-]; auto].
  apply isinstance_datetime in Eb, Ea. unfold absent in *.
  destruct Ea as [Ea | (a & Ea)]; [rewrite Ea; cbn; discriminate|].
  destruct Eb as [Eb | (b & Eb)]; [rewrite Ea, Eb; cbn; discriminate|].
  rewrite Ea, Eb. cbn.
  destruct (datetime_eq a b); [intros [= <-]; auto|].
  destruct (datetime_lt a b) as [[|]|e'] eqn:El; [discriminate | intros [= <-]; auto |].
  intros [= <-]. apply datetime_lt_raises in El. destruct El as [-> _].
  do 4 right. split; [reflexivity | split; eexists; reflexivity].
Qed.




(** ** The same-value assertion against the ordering assertion *)

Lemma occurred_pair_outcome_without_same_value_check self a b :
  occurred_after self = PDatetime a -> occurred_before self = PDatetime b ->
  outcome (_validate_params_occurred_before_and_occurred_after_without_same_value_check self) =
  match datetime_lt a b with
  | Ok true => Ok tt
  | Ok false => Raise (higher_ValueError (PDatetime b) (PDatetime a))
  | Raise e => Raise e
  end.
Proof.
  intros Ha Hb.
  assert (E1 : outcome (_validate_param_occurred_before self) = Ok tt)
    by (now rewrite occurred_before_outcome, Hb).
  assert (E2 : outcome (_validate_param_occurred_after self) = Ok tt)
    by (now rewrite occurred_after_outcome, Ha).
  unfold _validate_params_occurred_before_and_occurred_after_without_same_value_check.
  rewrite outcome_call, outcome_bind, E1, outcome_bind, E2, Ha, Hb.
  cbn [truthy andb]. rewrite higher_outcome, Ha, Hb. reflexivity.
Qed.

Lemma validate_outcome_without_same_value_check self :
  outcome (_validate_request_params_without_same_value_check self) =
  match outcome (_validate_param_auction_type self) with
  | Raise e => Raise e
  | Ok _ =>
    match outcome (_validate_param_event_type self) with
    | Raise e => Raise e
    | Ok _ =>
      outcome (_validate_params_occurred_before_and_occurred_after_without_same_value_check self)
    end
  end.
Proof.
  unfold _validate_request_params_without_same_value_check.
  rewrite outcome_call, outcome_bind.
  destruct (outcome (_validate_param_auction_type self)); [|reflexivity].
  now rewrite outcome_bind.
Qed.

(** C10: when occurred_before and occurred_after are both datetimes, the
    validator without the same-value check accepts and rejects exactly
    the inputs the implemented one does, because [==] on two datetimes
    makes [<] answer false; the two raise the same error unless the
    values are equal, and on equal values both raise a ValueError, under
    different messages. *)
Theorem same_value_check_is_redundant (self : _EventsEndpoint) (a b : datetime) :
  occurred_after self = PDatetime a -> occurred_before self = PDatetime b ->
  let impl := outcome (_validate_params_occurred_before_and_occurred_after self) in
  let variant :=
    outcome (_validate_params_occurred_before_and_occurred_after_without_same_value_check self) in
  is_ok impl = is_ok variant /\
  is_ok (outcome (_validate_request_params self)) =
    is_ok (outcome (_validate_request_params_without_same_value_check self)) /\
  (datetime_eq a b = true -> datetime_lt a b = Ok false) /\
  (datetime_eq a b = false ->
   impl = variant /\
   outcome (_validate_request_params self) =
     outcome (_validate_request_params_without_same_value_check self)) /\
  (datetime_eq a b = true ->
   impl = Raise (same_value_ValueError (PDatetime b) (PDatetime a)) /\
   variant = Raise (higher_ValueError (PDatetime b) (PDatetime a)) /\
   exn_kind_of (same_value_ValueError (PDatetime b) (PDatetime a)) =
     exn_kind_of (higher_ValueError (PDatetime b) (PDatetime a))).
Proof.
  intros Ha Hb. cbv zeta.
  rewrite validate_outcome, validate_outcome_without_same_value_check.
  rewrite (occurred_pair_outcome self a b Ha Hb),
    (occurred_pair_outcome_without_same_value_check self a b Ha Hb).
  destruct (datetime_eq a b) eqn:Eq.
  - rewrite (datetime_eq_not_lt a b Eq).
    repeat split; try discriminate; try reflexivity.
    destruct (outcome (_validate_param_auction_type self)); [|reflexivity].
    destruct (outcome (_validate_param_event_type self)); reflexivity.
  - repeat split; try discriminate; try reflexivity.
Qed.

Lemma same_value_check_is_redundant_witness :
  is_ok (outcome (_validate_params_occurred_before_and_occurred_after
                    (with_occurred (PDatetime dt_now) (PDatetime dt_now) events_default))) =
  is_ok (outcome (_validate_params_occurred_before_and_occurred_after_without_same_value_check
                    (with_occurred (PDatetime dt_now) (PDatetime dt_now) events_default))).
Proof.
  apply (proj1 (same_value_check_is_redundant
                  (with_occurred (PDatetime dt_now) (PDatetime dt_now) events_default)
                  dt_now dt_now eq_refl eq_refl)).
Defined.

(** ** The request *)

Lemma request_params_dom self cp :
  dom (request_params self cp) = list_to_set query_parameter_names.
Proof. unfold request_params. rewrite dom_list_to_map_L. reflexivity. Qed.

(** C6, as amended: for a constructed instance that holds a
    client-parameters object (not the default [None]),
    issuing the request makes one GET to the events URL; its query
    parameters are exactly the eleven named ones, offset and limit read
    from the client parameters and every other value the instance's field
    as it is; the response the transport returns is kept on the object
    and returned. *)
Theorem get_request_contract (EVENTS_value : string)
    (perform_get : string -> gmap string pyval -> result Response)
    (f self : _EventsEndpoint) (cp : _ClientParams) (issued : list http_call) :
  construct f = Ok self -> client_params self = Some cp ->
  let params := request_params self cp in
  let run := _get_request EVENTS_value perform_get self issued in
  dom params = list_to_set query_parameter_names /\
  (params !! "offset" = Some (offset cp) /\
   params !! "limit" = Some (limit cp) /\
   params !! "asset_contract_address" = Some (asset_contract_address f) /\
   params !! "event_type" = Some (event_type f) /\
   params !! "only_opensea" = Some (only_opensea f) /\
   params !! "collection_slug" = Some (collection_slug f) /\
   params !! "token_id" = Some (token_id f) /\
   params !! "account_address" = Some (account_address f) /\
   params !! "auction_type" = Some (auction_type f) /\
   params !! "occurred_before" = Some (occurred_before f) /\
   params !! "occurred_after" = Some (occurred_after f)) /\
  fst run = (issued ++ [mk_http_call GET EVENTS_value params])%list /\
  match perform_get EVENTS_value params with
  | Ok resp =>
      snd run = Ok (set_http_response self resp, resp) /\
      _http_response (set_http_response self resp) = Some resp
  | Raise e => snd run = Raise e
  end.
Proof.
  intros Hc Hcp. cbv zeta.
  apply construct_ok_fresh in Hc. subst self.
  split; [apply request_params_dom |].
  split; [repeat split |].
  unfold _get_request, super_get_request, url. rewrite Hcp.
  destruct (perform_get EVENTS_value (request_params (fresh f) cp));
    repeat split; reflexivity.
Qed.

Lemma get_request_contract_witness :
  let params := request_params (fresh events_default) {| offset := PInt 0; limit := PInt 1 |} in
  let run := _get_request sample_events_url (fun _ _ => Ok one_event_response)
               (fresh events_default) [] in
  dom params = list_to_set query_parameter_names /\
  fst run = [mk_http_call GET sample_events_url params] /\
  snd run = Ok (set_http_response (fresh events_default) one_event_response,
                one_event_response).
Proof.
  cbv zeta.
  pose proof (get_request_contract sample_events_url (fun _ _ => Ok one_event_response)
                events_default (fresh events_default)
                {| offset := PInt 0; limit := PInt 1 |} [] eq_refl eq_refl) as H.
  cbv zeta in H. destruct H as (Hd & _ & Hlog & Hresp & _).
  split; [exact Hd | split; [exact Hlog | exact Hresp]].
Defined.

(** C6 as stated fails: construction succeeds on valid fields whose
    client_params is the dataclass default [None], and issuing the
    request on that instance raises AttributeError while the query
    parameters are built; no GET is performed and no response is
    retained. *)
Lemma get_request_without_client_params_issues_no_get :
  construct (with_client_params None events_default) =
    Ok (fresh (with_client_params None events_default)) /\
  _http_response (fresh (with_client_params None events_default)) = None /\
  _get_request sample_events_url (fun _ _ => Ok one_event_response)
    (fresh (with_client_params None events_default)) [] =
  ([], Raise (mk_exn AttributeError
                [[FText "'NoneType' object has no attribute 'offset'"]])).
Proof. split; [reflexivity | split; reflexivity]. Qed.

(** ** The response *)

(** C7: when the retained response decodes to an object whose
    [asset_events] member is an array, the parsed result is the
    element-wise image of that array under the event parser: same length,
    the i-th record parsed from the i-th element, order kept. *)
Theorem parsed_response_is_map {EventRecord : Type} (EventResponse : pyjson -> EventRecord)
    (self : _EventsEndpoint) (resp : Response)
    (members : list (string * pyjson)) (items : list pyjson) :
  _http_response self = Some resp ->
  body_json resp = Some (JDict members) ->
  assoc "asset_events" members = Some (JList items) ->
  exists events,
    parsed_http_response EventRecord EventResponse self = Ok events /\
    events = map EventResponse items /\
    length events = length items /\
    forall i : nat, nth_error events i = option_map EventResponse (nth_error items i).
Proof.
  intros Hr Hb Hm. exists (map EventResponse items).
  split; [|split; [reflexivity | split]].
  - unfold parsed_http_response, Response_json. rewrite Hr, Hb. cbn.
    rewrite Hm. reflexivity.
  - apply length_map.
  - intros i. apply nth_error_map.
Qed.

Lemma parsed_response_is_map_witness :
  parsed_http_response pyjson (fun j => j)
    (set_http_response (fresh events_default) one_event_response) =
  Ok [JDict [("event_type", JStr "successful")]].
Proof.
  destruct (parsed_response_is_map (fun j : pyjson => j)
              (set_http_response (fresh events_default) one_event_response)
              one_event_response
              [("asset_events", JList [JDict [("event_type", JStr "successful")]])]
              [JDict [("event_type", JStr "successful")]]
              eq_refl eq_refl eq_refl) as (events & Hp & He & _).
  rewrite Hp, He. reflexivity.
Defined.

(** ** The life of a query *)

Lemma step_from_unvalidated EVENTS_value perform_get {EventRecord : Type}
    (EventResponse : pyjson -> EventRecord) (f : _EventsEndpoint)
    (issued : list http_call) (p : stage EventRecord * list http_call) :
  rtc (step EVENTS_value perform_get EventRecord EventResponse) (Unbuilt f, issued) p ->
  valid f \/
  (snd p = issued /\
   (fst p = Unbuilt f \/ exists e, construct f = Raise e /\ fst p = Failed e)).
Proof.
  revert p. apply rtc_ind_r; [| intros y z Hreach Hstep IH].
  - right. split; [reflexivity | now left].
  - destruct IH as [Hv | [Hi [Hu | (e & He & Hf)]]]; [now left | |].
    + destruct y as [s i]. cbn in Hi, Hu. subst s i.
      inversion Hstep; subst.
      destruct (construct f) as [self | e] eqn:E.
      * left. apply construct_ok_iff_valid.
        now rewrite <- (construct_ok_fresh f self E).
      * right. split; [reflexivity | right]. now exists e.
    + destruct y as [s i]. cbn in Hi, Hf. subst s i. inversion Hstep.
Qed.

(** C8: on an input that breaks a validation rule the failure is raised
    by construction, and from there no HTTP call is ever issued; along
    any run of the life cycle, a call has been issued, or an object
    exists, only if validation of the fields succeeded. *)
Theorem no_request_without_validation (EVENTS_value : string)
    (perform_get : string -> gmap string pyval -> result Response)
    {EventRecord : Type} (EventResponse : pyjson -> EventRecord)
    (f : _EventsEndpoint) (issued : list http_call) :
  let step := step EVENTS_value perform_get EventRecord EventResponse in
  (~ valid f ->
   exists e, construct f = Raise e /\
     step (Unbuilt f, issued) (Failed e, issued) /\
     forall s issued', rtc step (Unbuilt f, issued) (s, issued') ->
       issued' = issued /\ (s = Unbuilt f \/ s = Failed e)) /\
  (forall s issued', rtc step (Unbuilt f, issued) (s, issued') ->
     issued' <> issued \/
     (exists self, s = Validated self \/ s = Requested self) \/
     (exists events, s = Parsed events) ->
     valid f).
Proof.
  cbv zeta. split.
  - intros Hnv.
    destruct (construct f) as [self | e] eqn:E.
    { exfalso. apply Hnv, construct_ok_iff_valid.
      now rewrite <- (construct_ok_fresh f self E). }
    exists e. split; [reflexivity | split].
    + pose proof (step_construct EVENTS_value perform_get EventRecord EventResponse
                    f issued) as Hs.
      now rewrite E in Hs.
    + intros s issued' Hreach.
      apply step_from_unvalidated in Hreach.
      destruct Hreach as [Hv | [Hi [Hu | (e' & He' & Hf)]]]; [contradiction | |];
        cbn in *; subst.
      * split; [reflexivity | now left].
      * split; [reflexivity | right]. congruence.
  - intros s issued' Hreach Hobs.
    apply step_from_unvalidated in Hreach.
    destruct Hreach as [Hv | [Hi [Hu | (e' & He' & Hf)]]]; [exact Hv | |];
      cbn in *; subst; exfalso;
      destruct Hobs as [Hne | [(self & [Hs | Hs]) | (events & Hs)]];
      congruence.
Qed.

Lemma no_request_without_validation_witness :
  exists e,
    construct (with_event_type (PStr "randomstr") events_default) = Raise e /\
    step sample_events_url (fun _ _ => Ok one_event_response) pyjson (fun j => j)
      (Unbuilt (with_event_type (PStr "randomstr") events_default), [])
      (Failed e, []).
Proof.
  destruct (proj1 (no_request_without_validation sample_events_url
                     (fun _ _ => Ok one_event_response) (fun j : pyjson => j)
                     (with_event_type (PStr "randomstr") events_default) []))
    as (e & He & Hs & _).
  - intros [_ [_ Hm] _ _ _]. exact (randomstr_not_EventType Hm).
  - exists e. split; [exact He | exact Hs].
Defined.

(** ** What validation reads and what it can raise *)

Lemma validators_read_four_fields f g :
  same_validated_fields f g -> _validate_request_params f = _validate_request_params g.
Proof.
  intros (Ha & He & Hb & Hf).
  unfold _validate_request_params, _validate_param_auction_type,
    _validate_param_event_type, _validate_params_occurred_before_and_occurred_after,
    _validate_param_occurred_before, _validate_param_occurred_after,
    _assert_param_occurred_before_after_cannot_be_same_value,
    _assert_param_occurred_before_cannot_be_higher_than_occurred_after.
  now rewrite Ha, He, Hb, Hf.
Qed.

(** Validation reads auction_type, event_type, occurred_before and
    occurred_after and nothing else: two inputs that agree on these four
    enter the same methods and end alike, whatever their contract
    address, token id, collection slug, account address, only_opensea
    flag and client parameters; construction raises the same exception on
    both or succeeds on both. *)
Theorem validation_reads_four_fields_only (f g : _EventsEndpoint) :
  same_validated_fields f g ->
  calls (_validate_request_params f) = calls (_validate_request_params g) /\
  outcome (_validate_request_params f) = outcome (_validate_request_params g) /\
  (forall e, construct f = Raise e <-> construct g = Raise e) /\
  (construct f = Ok (fresh f) <-> construct g = Ok (fresh g)).
Proof.
  intros H. pose proof (validators_read_four_fields f g H) as Hv.
  split; [now rewrite Hv | split; [now rewrite Hv |]].
  rewrite !construct_outcome, !validate_fresh, Hv.
  destruct (outcome (_validate_request_params g)); split; split;
    intros H0; try discriminate; try reflexivity; exact H0.
Qed.

Lemma validation_reads_four_fields_only_witness :
  construct (with_client_params None
               (with_occurred (PBool true) PNone events_default)) =
  Raise (occurred_before_TypeError (PBool true)).
Proof.
  apply (proj1 (proj1 (proj2 (proj2 (validation_reads_four_fields_only
           (with_occurred (PBool true) PNone events_default)
           (with_client_params None (with_occurred (PBool true) PNone events_default))
           (conj eq_refl (conj eq_refl (conj eq_refl eq_refl)))))) _)).
  reflexivity.
Defined.

Lemma construct_raises_one_of f e :
  construct f = Raise e ->
  e = auction_type_TypeError (auction_type f) \/
  e = auction_type_ValueError (auction_type f) \/
  e = event_type_TypeError (event_type f) \/
  e = event_type_ValueError (event_type f) \/
  e = occurred_before_TypeError (occurred_before f) \/
  e = occurred_after_TypeError (occurred_after f) \/
  e = same_value_ValueError (occurred_before f) (occurred_after f) \/
  e = higher_ValueError (occurred_before f) (occurred_after f) \/
  e = naive_aware_TypeError.
Proof.
  rewrite construct_groups.
  destruct (outcome (_validate_param_auction_type f)) as [[]|ea] eqn:Ea.
  - destruct (outcome (_validate_param_event_type f)) as [[]|ee] eqn:Ee.
    + destruct (outcome (_validate_params_occurred_before_and_occurred_after f))
        as [[]|eo] eqn:Eo; [discriminate|].
      intros [= <-]. apply occurred_errors in Eo.
      destruct Eo as [-> | [-> | [-> | [-> | [-> _]]]]]; tauto.
    + intros [= <-]. rewrite event_type_outcome in Ee. cbv zeta in Ee.
      destruct (isinstance _ _); [|injection Ee as <-; tauto].
      destruct (py_in _ _); [discriminate | injection Ee as <-; tauto].
  - intros [= <-]. rewrite auction_type_outcome in Ea.
    destruct (auction_type f); cbv zeta in Ea; try discriminate;
      repeat match type of Ea with
             | context [if ?c then _ else _] => destruct c
             end;
      try discriminate; injection Ea as <-; tauto.
Qed.

(** Construction raises nothing but TypeError and ValueError: the
    exception is one of the eight the validators build, or the TypeError
    that comparing a naive with an aware datetime raises. *)
Theorem construction_raises_TypeError_or_ValueError (f : _EventsEndpoint) (e : exn) :
  construct f = Raise e ->
  (exn_kind_of e = TypeError \/ exn_kind_of e = ValueError) /\
  (e = auction_type_TypeError (auction_type f) \/
   e = auction_type_ValueError (auction_type f) \/
   e = event_type_TypeError (event_type f) \/
   e = event_type_ValueError (event_type f) \/
   e = occurred_before_TypeError (occurred_before f) \/
   e = occurred_after_TypeError (occurred_after f) \/
   e = same_value_ValueError (occurred_before f) (occurred_after f) \/
   e = higher_ValueError (occurred_before f) (occurred_after f) \/
   e = naive_aware_TypeError).
Proof.
  intros H. apply construct_raises_one_of in H. split; [|exact H].
  destruct H as [-> | [-> | [-> | [-> | [-> | [-> | [-> | [-> | ->]]]]]]]];
    cbn; tauto.
Qed.

Lemma construction_raises_TypeError_or_ValueError_witness :
  exn_kind_of (event_type_ValueError (PStr "randomstr")) = TypeError \/
  exn_kind_of (event_type_ValueError (PStr "randomstr")) = ValueError.
Proof.
  apply (proj1 (construction_raises_TypeError_or_ValueError
                  (with_event_type (PStr "randomstr") events_default)
                  (event_type_ValueError (PStr "randomstr")) eq_refl)).
Defined.

(** A member of the other enum is a string, so it passes the type check
    and fails the value check: an AuctionType member given as event_type,
    or an EventType member given as auction_type, raises the ValueError
    and not the TypeError; for auction_type, which is checked first, that
    is the error of construction. *)
Theorem member_of_the_other_enum_is_a_ValueError (f : _EventsEndpoint) :
  (forall a : AuctionType, event_type f = PAuctionType a ->
     outcome (_validate_param_event_type f) =
       Raise (event_type_ValueError (PAuctionType a)) /\
     is_ok (construct f) = false) /\
  (forall e : EventType, auction_type f = PEventType e ->
     outcome (_validate_param_auction_type f) =
       Raise (auction_type_ValueError (PEventType e)) /\
     construct f = Raise (auction_type_ValueError (PEventType e))).
Proof.
  split.
  - intros a Ha.
    assert (Hout : outcome (_validate_param_event_type f) =
                   Raise (event_type_ValueError (PAuctionType a))).
    { rewrite event_type_outcome, Ha. destruct a; reflexivity. }
    split; [exact Hout |]. rewrite construct_groups, Hout.
    destruct (outcome (_validate_param_auction_type f)); reflexivity.
  - intros e He.
    assert (Hout : outcome (_validate_param_auction_type f) =
                   Raise (auction_type_ValueError (PEventType e))).
    { rewrite auction_type_outcome, He. destruct e; reflexivity. }
    split; [exact Hout |]. now rewrite construct_groups, Hout.
Qed.

Lemma member_of_the_other_enum_is_a_ValueError_witness :
  construct (with_auction_type (PEventType TRANSFER) events_default) =
  Raise (auction_type_ValueError (PEventType TRANSFER)).
Proof.
  apply (proj2 (member_of_the_other_enum_is_a_ValueError
                  (with_auction_type (PEventType TRANSFER) events_default))
           TRANSFER eq_refl).
Defined.

(** ** Naive against aware datetimes *)

Lemma naive_aware_no_payload :
  ~ mentions naive_aware_TypeError "occurred_before" /\
  ~ mentions naive_aware_TypeError "occurred_after" /\
  forall v, ~ carries_value naive_aware_TypeError v.
Proof.
  split; [|split].
  - intros (arg & s & Hin & Hs & Hsub). cbn in Hin.
    destruct Hin as [<- | []]. cbn in Hs. destruct Hs as [[= <-] | []].
    discriminate Hsub.
  - intros (arg & s & Hin & Hs & Hsub). cbn in Hin.
    destruct Hin as [<- | []]. cbn in Hs. destruct Hs as [[= <-] | []].
    discriminate Hsub.
  - intros v (arg & Hin & Hr). cbn in Hin.
    destruct Hin as [<- | []]. cbn in Hr. destruct Hr as [Hr | []].
    discriminate Hr.
Qed.

(** When one of occurred_before and occurred_after is a naive datetime
    and the other an aware one, both pass the type checks and the
    same-value check, and the ordering check lets the TypeError of the
    datetime comparison escape: an exception that names neither field and
    holds no value.  It is what construction raises once the auction-type
    and event-type checks have passed. *)
Theorem naive_against_aware_escapes_as_TypeError (f : _EventsEndpoint) (a b : datetime) :
  occurred_after f = PDatetime a -> occurred_before f = PDatetime b ->
  (is_naive a /\ is_aware b) \/ (is_aware a /\ is_naive b) ->
  outcome (_validate_params_occurred_before_and_occurred_after f) =
    Raise naive_aware_TypeError /\
  exn_kind_of naive_aware_TypeError = TypeError /\
  ~ mentions naive_aware_TypeError "occurred_before" /\
  ~ mentions naive_aware_TypeError "occurred_after" /\
  (forall v, ~ carries_value naive_aware_TypeError v) /\
  is_ok (construct f) = false /\
  (earlier_groups_pass f -> construct f = Raise naive_aware_TypeError).
Proof.
  intros Ha Hb Hmix.
  assert (Hout : outcome (_validate_params_occurred_before_and_occurred_after f) =
                 Raise naive_aware_TypeError).
  { rewrite (occurred_pair_outcome f a b Ha Hb).
    unfold datetime_eq, datetime_lt, datetime_cmp, is_naive, is_aware in *.
    destruct Hmix as [[Hn (off & Hw)] | [(off & Hw) Hn]]; rewrite Hn, Hw; reflexivity. }
  destruct naive_aware_no_payload as (H1 & H2 & H3).
  destruct (construct_fails_with_occurred f _ Hout) as [Hf Hc].
  repeat split; auto.
Qed.

Lemma naive_against_aware_escapes_as_TypeError_witness :
  construct (with_occurred (PDatetime dt_aware) (PDatetime dt_now) events_default) =
  Raise naive_aware_TypeError.
Proof.
  apply (naive_against_aware_escapes_as_TypeError
           (with_occurred (PDatetime dt_aware) (PDatetime dt_now) events_default)
           dt_now dt_aware eq_refl eq_refl).
  - left. split; [reflexivity | exists 7200000000; reflexivity].
  - split; reflexivity.
Defined.

(** ** Validity is kept *)

(** A constructed object validates again: building a new endpoint from
    its fields gives the same object, and so it does after a response has
    been stored on it, so the request does not disturb what construction
    checked. *)
Theorem constructed_object_revalidates (f self : _EventsEndpoint) (resp : Response) :
  construct f = Ok self ->
  outcome (_validate_request_params self) = Ok tt /\
  construct self = Ok self /\
  outcome (_validate_request_params (set_http_response self resp)) = Ok tt /\
  construct (set_http_response self resp) = Ok self /\
  valid (set_http_response self resp).
Proof.
  intros Hc. pose proof (construct_ok_fresh f self Hc) as ->.
  assert (Hv : valid f).
  { apply construct_ok_iff_valid. exact Hc. }
  assert (Ho : outcome (_validate_request_params f) = Ok tt).
  { rewrite construct_outcome, validate_fresh in Hc.
    destruct (outcome (_validate_request_params f)) as [[]|]; [reflexivity | discriminate]. }
  assert (Hc' : construct (fresh f) = Ok (fresh f)).
  { rewrite construct_outcome.
    change (outcome (_validate_request_params (fresh (fresh f))))
      with (outcome (_validate_request_params f)).
    now rewrite Ho. }
  split; [exact Ho | split; [exact Hc' | split; [exact Ho | split]]].
  - rewrite construct_outcome.
    change (outcome (_validate_request_params
                       (fresh (set_http_response (fresh f) resp))))
      with (outcome (_validate_request_params f)).
    now rewrite Ho.
  - destruct Hv as [H1 H2 H3 H4 H5]. now constructor.
Qed.

Lemma constructed_object_revalidates_witness :
  construct (set_http_response (fresh events_default) one_event_response) =
  Ok (fresh events_default).
Proof.
  apply (constructed_object_revalidates events_default (fresh events_default)
           one_event_response eq_refl).
Defined.

(** ** Inside the occurred-before/after group *)

Lemma occurred_before_type_failure self :
  ~ (absent (occurred_before self) \/ is_datetime (occurred_before self)) ->
  outcome (_validate_params_occurred_before_and_occurred_after self) =
  Raise (occurred_before_TypeError (occurred_before self)).
Proof.
  rewrite <- isinstance_datetime. intros H.
  rewrite occurred_outcome, occurred_before_outcome.
  destruct (isinstance (occurred_before self) _); [now contradict H | reflexivity].
Qed.

Lemma occurred_after_type_failure self :
  absent (occurred_before self) \/ is_datetime (occurred_before self) ->
  ~ (absent (occurred_after self) \/ is_datetime (occurred_after self)) ->
  outcome (_validate_params_occurred_before_and_occurred_after self) =
  Raise (occurred_after_TypeError (occurred_after self)).
Proof.
  rewrite <- !isinstance_datetime. intros Hb Ha.
  rewrite occurred_outcome, occurred_before_outcome, occurred_after_outcome, Hb.
  destruct (isinstance (occurred_after self) _); [now contradict Ha | reflexivity].
Qed.

(** occurred_before is checked before occurred_after: a wrong type of
    occurred_before is the error reported whatever occurred_after holds,
    and a wrong type of occurred_after is reported only when
    occurred_before is absent or a datetime.  Once the earlier groups
    have passed, that is the error construction raises. *)
Theorem occurred_before_is_reported_first (f : _EventsEndpoint) :
  (~ (absent (occurred_before f) \/ is_datetime (occurred_before f)) ->
   outcome (_validate_params_occurred_before_and_occurred_after f) =
     Raise (occurred_before_TypeError (occurred_before f)) /\
   ~ In M_validate_param_occurred_after
        (calls (_validate_params_occurred_before_and_occurred_after f)) /\
   (earlier_groups_pass f ->
    construct f = Raise (occurred_before_TypeError (occurred_before f)))) /\
  (absent (occurred_before f) \/ is_datetime (occurred_before f) ->
   ~ (absent (occurred_after f) \/ is_datetime (occurred_after f)) ->
   outcome (_validate_params_occurred_before_and_occurred_after f) =
     Raise (occurred_after_TypeError (occurred_after f)) /\
   (earlier_groups_pass f ->
    construct f = Raise (occurred_after_TypeError (occurred_after f)))).
Proof.
  split.
  - intros Hb. pose proof (occurred_before_type_failure f Hb) as Hout.
    split; [exact Hout | split].
    + rewrite occurred_calls, occurred_before_outcome.
      rewrite <- isinstance_datetime in Hb.
      destruct (isinstance (occurred_before f) _); [now contradict Hb |].
      cbn. intros [H | [H | []]]; discriminate H.
    + now apply construct_fails_with_occurred.
  - intros Hb Ha. pose proof (occurred_after_type_failure f Hb Ha) as Hout.
    split; [exact Hout | now apply construct_fails_with_occurred].
Qed.

Lemma occurred_before_is_reported_first_witness :
  construct (with_occurred (PBool true) (PStr "yesterday") events_default) =
  Raise (occurred_before_TypeError (PBool true)).
Proof.
  apply (proj1 (occurred_before_is_reported_first
                  (with_occurred (PBool true) (PStr "yesterday") events_default))).
  - intros [H | (d & H)]; discriminate H.
  - split; reflexivity.
Defined.

Lemma assertions_need_two_datetimes self :
  In M_assert_param_occurred_before_after_cannot_be_same_value
     (calls (_validate_params_occurred_before_and_occurred_after self)) <->
  is_datetime (occurred_before self) /\ is_datetime (occurred_after self).
Proof.
  rewrite occurred_calls, occurred_before_outcome, occurred_after_outcome.
  unfold is_datetime.
  destruct (occurred_before self) eqn:Eb, (occurred_after self) eqn:Ea; cbn;
    split; intros H;
    try (destruct H as [(d1 & H1) (d2 & H2)]; discriminate);
    try (split; eexists; reflexivity);
    try (repeat (destruct H as [H | H]; try discriminate H); contradiction);
    try (right; right; right; left; reflexivity).
Qed.

(** The two cross-field assertions are entered exactly when both
    occurred_before and occurred_after are datetimes; one bound alone is
    never compared, whatever its value.  The ordering assertion is
    entered exactly when, in addition, the two are not equal. *)
Theorem cross_field_assertions_need_both_bounds (self : _EventsEndpoint) :
  (In M_assert_param_occurred_before_after_cannot_be_same_value
      (calls (_validate_params_occurred_before_and_occurred_after self)) <->
   is_datetime (occurred_before self) /\ is_datetime (occurred_after self)) /\
  (In M_assert_param_occurred_before_cannot_be_higher_than_occurred_after
      (calls (_validate_params_occurred_before_and_occurred_after self)) <->
   exists a b, occurred_after self = PDatetime a /\ occurred_before self = PDatetime b /\
               datetime_eq a b = false).
Proof.
  split; [apply assertions_need_two_datetimes |].
  rewrite occurred_calls, occurred_before_outcome, occurred_after_outcome,
    same_value_outcome.
  destruct (occurred_before self) as [ | ? | ? | ? | ? | ? | ? | db | ? ] eqn:Eb,
           (occurred_after self) as [ | ? | ? | ? | ? | ? | ? | da | ? ] eqn:Ea; cbn;
    try (split; intros H;
         [ repeat (destruct H as [H | H]; try discriminate H); contradiction
         | destruct H as (x1 & x2 & H1 & H2 & _); discriminate ]).
  destruct (datetime_eq da db) eqn:Eq; cbn; split; intros H.
  - repeat (destruct H as [H | H]; try discriminate H); contradiction.
  - destruct H as (x1 & x2 & [= <-] & [= <-] & H). congruence.
  - exists da, db. auto.
  - do 4 right. left. reflexivity.
Qed.

Lemma cross_field_assertions_need_both_bounds_witness :
  ~ In M_assert_param_occurred_before_after_cannot_be_same_value
       (calls (_validate_params_occurred_before_and_occurred_after
                 (with_occurred (PDatetime dt_now) PNone events_default))).
Proof.
  intros H.
  apply (proj1 (proj1 (cross_field_assertions_need_both_bounds
                         (with_occurred (PDatetime dt_now) PNone events_default)))) in H.
  destruct H as [_ (d & H)]. discriminate H.
Defined.

(** occurred_after set to occurred_before plus a non-negative time delta
    (same time zone) is rejected with a ValueError: the same-value error
    when the delta is zero, and the cannot-be-higher error, entered only
    after the same-value check has passed, when it is positive. *)
Theorem occurred_after_not_earlier_is_rejected (f : _EventsEndpoint)
    (wall delta : Z) (tz : option Z) :
  occurred_before f = PDatetime (mk_datetime wall tz) ->
  occurred_after f = PDatetime (mk_datetime (wall + delta) tz) ->
  0 <= delta ->
  let e := if delta =? 0
           then same_value_ValueError (occurred_before f) (occurred_after f)
           else higher_ValueError (occurred_before f) (occurred_after f) in
  outcome (_validate_params_occurred_before_and_occurred_after f) = Raise e /\
  exn_kind_of e = ValueError /\
  is_ok (construct f) = false /\
  (earlier_groups_pass f -> construct f = Raise e).
Proof.
  intros Hb Ha Hd. cbv zeta.
  assert (Hout : outcome (_validate_params_occurred_before_and_occurred_after f) =
                 Raise (if delta =? 0
                        then same_value_ValueError (occurred_before f) (occurred_after f)
                        else higher_ValueError (occurred_before f) (occurred_after f))).
  { rewrite (occurred_pair_outcome f _ _ Ha Hb), Ha, Hb.
    unfold datetime_eq, datetime_lt, datetime_cmp. cbn [dt_wall dt_utcoffset].
    assert (Hbase : match tz with
                    | Some x => match tz with Some y => x =? y | None => false end
                    | None => match tz with Some _ => false | None => true end
                    end = true).
    { destruct tz; [apply Z.eqb_refl | reflexivity]. }
    rewrite Hbase.
    destruct (Z.eqb_spec delta 0) as [-> | Hne].
    - rewrite Z.add_0_r, Z.compare_refl. reflexivity.
    - assert (Hgt : (wall + delta ?= wall) = Gt) by (apply Z.compare_gt_iff; lia).
      rewrite Hgt. reflexivity. }
  split; [exact Hout | split].
  - destruct (delta =? 0); reflexivity.
  - now apply construct_fails_with_occurred.
Qed.

Lemma occurred_after_not_earlier_is_rejected_witness :
  construct (with_occurred (PDatetime dt_now) (PDatetime dt_later) events_default) =
  Raise (higher_ValueError (PDatetime dt_now) (PDatetime dt_later)).
Proof.
  apply (occurred_after_not_earlier_is_rejected
           (with_occurred (PDatetime dt_now) (PDatetime dt_later) events_default)
           63763459200000000 1 None eq_refl eq_refl).
  - lia.
  - split; reflexivity.
Defined.

(** ** The request without client parameters, and repeated *)

Lemma get_request_keeps_params self cp resp :
  request_params (set_http_response self resp) cp = request_params self cp.
Proof. reflexivity. Qed.

(** Issuing the request again on the object that holds a response sends
    the same GET again: the query parameters do not depend on the
    retained response, the second call is appended after the first, and
    the object ends with the response of the second call. *)
Theorem repeated_request_sends_the_same_call (EVENTS_value : string)
    (perform_get : string -> gmap string pyval -> result Response)
    (self : _EventsEndpoint) (cp : _ClientParams) (resp : Response)
    (issued : list http_call) :
  client_params self = Some cp ->
  perform_get EVENTS_value (request_params self cp) = Ok resp ->
  let get := mk_http_call GET EVENTS_value (request_params self cp) in
  _get_request EVENTS_value perform_get self issued =
    ((issued ++ [get])%list, Ok (set_http_response self resp, resp)) /\
  _get_request EVENTS_value perform_get (set_http_response self resp)
               (issued ++ [get])%list =
    (((issued ++ [get]) ++ [get])%list, Ok (set_http_response self resp, resp)).
Proof.
  intros Hcp Hget. cbv zeta.
  unfold _get_request, super_get_request, url.
  cbn [client_params set_http_response].
  rewrite Hcp, get_request_keeps_params, Hget. split; reflexivity.
Qed.

Lemma repeated_request_sends_the_same_call_witness :
  fst (_get_request sample_events_url (fun _ _ => Ok one_event_response)
         (set_http_response (fresh events_default) one_event_response)
         [the_get sample_events_url events_default {| offset := PInt 0; limit := PInt 1 |}]) =
  [the_get sample_events_url events_default {| offset := PInt 0; limit := PInt 1 |};
   the_get sample_events_url events_default {| offset := PInt 0; limit := PInt 1 |}].
Proof.
  pose proof (proj2 (repeated_request_sends_the_same_call sample_events_url
                       (fun _ _ => Ok one_event_response) (fresh events_default)
                       {| offset := PInt 0; limit := PInt 1 |} one_event_response []
                       eq_refl eq_refl)) as H.
  cbv zeta in H. unfold the_get. cbn [app] in H. now rewrite H.
Defined.

(** ** The response that cannot be parsed *)

(** [parsed_http_response] returns only when a response is retained, its
    body decodes to a dict with the key [asset_events], and the value
    under it can be iterated; the records are then the parser's images of
    the elements visited.  Otherwise it raises: AttributeError without a
    retained response, the decoding error of a body that is not JSON,
    KeyError naming [asset_events] when the key is missing, and TypeError
    when the body is not a dict or the value is null, a boolean or a
    number. *)
Theorem parsed_http_response_cases {EventRecord : Type} (EventResponse : pyjson -> EventRecord)
    (self : _EventsEndpoint) :
  match parsed_http_response EventRecord EventResponse self with
  | Ok events =>
      exists resp members v elements,
        _http_response self = Some resp /\
        body_json resp = Some (JDict members) /\
        assoc "asset_events" members = Some v /\
        iterate v = Ok elements /\
        events = map EventResponse elements
  | Raise e =>
      (_http_response self = None /\ exn_kind_of e = AttributeError) \/
      (exists resp, _http_response self = Some resp /\ body_json resp = None /\
                    exn_kind_of e = JSONDecodeError) \/
      (exists resp members,
         _http_response self = Some resp /\ body_json resp = Some (JDict members) /\
         assoc "asset_events" members = None /\
         e = mk_exn KeyError [[FText "asset_events"]]) \/
      (exists resp body,
         _http_response self = Some resp /\ body_json resp = Some body /\
         (forall members, body <> JDict members) /\ exn_kind_of e = TypeError) \/
      (exists resp members v,
         _http_response self = Some resp /\ body_json resp = Some (JDict members) /\
         assoc "asset_events" members = Some v /\
         (v = JNone \/ (exists b, v = JBoolean b) \/ (exists n, v = JInt n) \/
          (exists x, v = JFloat x)) /\
         exn_kind_of e = TypeError)
  end.
Proof.
  unfold parsed_http_response, Response_json.
  destruct (_http_response self) as [resp|]; [|left; split; reflexivity].
  destruct (body_json resp) as [body|] eqn:Eb; cbn;
    [|right; left; exists resp; auto].
  destruct body as [ | b | n | x | s | items | members ]; cbn;
    try (right; right; right; left; eexists resp, _;
         split; [reflexivity | split; [exact Eb | split; [intros m; discriminate | reflexivity]]]).
  destruct (assoc "asset_events" members) as [v|] eqn:Ev; cbn;
    [|right; right; left; exists resp, members; auto].
  destruct v as [ | b | n | x | s | items | inner ]; cbn;
    try (exists resp, members; eexists _, _;
         split; [reflexivity | split; [exact Eb | split; [exact Ev | split; reflexivity]]]);
    do 4 right; exists resp, members; eexists;
    (split; [reflexivity | split; [exact Eb | split; [exact Ev | split; [|reflexivity]]]]);
    eauto 6.
Qed.

Lemma parsed_http_response_cases_witness :
  exists resp members,
    _http_response (set_http_response (fresh events_default)
                      (mk_Response 200 (Some (JDict [("detail", JStr "Not found.")]))))
      = Some resp /\
    body_json resp = Some (JDict members) /\
    assoc "asset_events" members = None.
Proof.
  pose proof (parsed_http_response_cases (fun j : pyjson => j)
                (set_http_response (fresh events_default)
                   (mk_Response 200 (Some (JDict [("detail", JStr "Not found.")])))))
    as H.
  cbn in H.
  destruct H as [[H _] | [(r & _ & _ & H) | [(r & m & Hr & Hb & Hm & _) |
                 [(r & b & _ & _ & _ & H) | (r & m & v & _ & _ & _ & _ & H)]]]];
    try discriminate H.
  exists r, m. auto.
Defined.

Lemma code_points_not_nil c rest : code_points (String c rest) <> [].
Proof.
  cbn [code_points]. destruct (code_points rest); [discriminate |].
  destruct (starts_with_continuation rest); discriminate.
Qed.

(** The characters, put end to end, are the string. *)
Lemma join_code_points s : join (code_points s) = s.
Proof.
  unfold join. induction s as [|c rest IH]; [reflexivity |].
  cbn [code_points]. destruct (code_points rest) as [|g gs] eqn:E.
  - destruct rest as [|d r]; [reflexivity |].
    now destruct (code_points_not_nil d r).
  - cbn [fold_right] in IH.
    destruct (starts_with_continuation rest);
      change (String c (g ++ fold_right String.append EmptyString gs) = String c rest);
      now rewrite IH.
Qed.

(** There are as many characters as bytes that begin one. *)
Lemma length_code_points s :
  length (code_points s) =
  ((if starts_with_continuation s then 1 else 0) + count_leading_bytes s)%nat.
Proof.
  induction s as [|c rest IH]; [reflexivity |].
  cbn [code_points count_leading_bytes starts_with_continuation].
  destruct (code_points rest) as [|g gs] eqn:E.
  - destruct rest as [|d r]; [|now destruct (code_points_not_nil d r)].
    cbn. destruct (is_continuation_byte c); reflexivity.
  - cbn [length] in IH.
    destruct (starts_with_continuation rest); cbn [length];
      destruct (is_continuation_byte c); lia.
Qed.

(** The value under [asset_events] is not checked to be an array: over a
    JSON object the parser is applied to its keys, in order, and over a
    string to its characters, one record for each code point: the
    characters visited make up the string, and there are as many of them
    as bytes of its UTF-8 encoding that begin a character. *)
Theorem asset_events_of_another_shape_is_iterated {EventRecord : Type}
    (EventResponse : pyjson -> EventRecord)
    (self : _EventsEndpoint) (resp : Response) (members : list (string * pyjson)) :
  _http_response self = Some resp ->
  body_json resp = Some (JDict members) ->
  (forall inner, assoc "asset_events" members = Some (JDict inner) ->
     parsed_http_response EventRecord EventResponse self =
       Ok (map (fun kv => EventResponse (JStr (fst kv))) inner)) /\
  (forall s, assoc "asset_events" members = Some (JStr s) ->
     parsed_http_response EventRecord EventResponse self =
       Ok (map (fun c => EventResponse (JStr c)) (code_points s)) /\
     join (code_points s) = s /\
     (begins_a_character s ->
      exists events, parsed_http_response EventRecord EventResponse self = Ok events /\
                     length events = count_leading_bytes s)).
Proof.
  intros Hr Hb. unfold parsed_http_response, Response_json. rewrite Hr, Hb. cbn.
  split.
  - intros inner Hv. rewrite Hv. cbn. now rewrite map_map.
  - intros s Hv. rewrite Hv. cbn. rewrite map_map.
    split; [reflexivity | split; [apply join_code_points |]].
    intros Hs. eexists. split; [reflexivity |].
    rewrite length_map, length_code_points.
    destruct s as [|c rest]; [reflexivity |].
    cbn in Hs. cbn [starts_with_continuation]. now rewrite Hs.
Qed.

Lemma asset_events_of_another_shape_is_iterated_witness :
  parsed_http_response pyjson (fun j => j)
    (set_http_response (fresh events_default)
       (mk_Response 200 (Some (JDict [("asset_events", JStr price_in_euro)])))) =
  Ok [JStr "5"; JStr euro].
Proof.
  apply (proj1 (proj2 (asset_events_of_another_shape_is_iterated (fun j : pyjson => j)
           (set_http_response (fresh events_default)
              (mk_Response 200 (Some (JDict [("asset_events", JStr price_in_euro)]))))
           (mk_Response 200 (Some (JDict [("asset_events", JStr price_in_euro)])))
           [("asset_events", JStr price_in_euro)] eq_refl eq_refl) price_in_euro eq_refl)).
Defined.

(** ** Runs of the life cycle *)

Lemma life_cycle_invariant_kept EVENTS_value perform_get {EventRecord : Type}
    (EventResponse : pyjson -> EventRecord) (f : _EventsEndpoint)
    (issued : list http_call) (p : stage EventRecord * list http_call) :
  rtc (step EVENTS_value perform_get EventRecord EventResponse) (Unbuilt f, issued) p ->
  life_cycle_invariant EVENTS_value perform_get EventResponse f issued p.
Proof.
  revert p. apply rtc_ind_r; [| intros y z Hreach Hstep IH].
  - split; reflexivity.
  - unfold life_cycle_invariant in *.
    inversion Hstep as [g i | self i | self i]; subst; cbn [fst snd] in *.
    + destruct IH as [-> ->].
      destruct (construct f) as [self | e] eqn:E; cbn [fst snd].
      * pose proof (construct_ok_fresh f self E) as ->.
        split; [reflexivity | split; [|reflexivity]].
        now apply construct_ok_iff_valid.
      * now left.
    + destruct IH as (-> & Hv & ->).
      unfold _get_request, super_get_request, url.
      change (client_params (fresh f)) with (client_params f).
      destruct (client_params f) as [cp|] eqn:Ecp; cbn [fst snd]; [|now left].
      destruct (perform_get EVENTS_value (request_params (fresh f) cp)) as [resp|e] eqn:Eg;
        cbn [fst snd].
      * split; [exact Hv |]. exists cp, resp. auto.
      * right. split; [exact Hv |]. exists cp. auto.
    + destruct IH as (Hv & cp & resp & Hcp & Hg & -> & ->).
      destruct (parsed_http_response EventRecord EventResponse
                  (set_http_response (fresh f) resp)) as [events|e] eqn:Ep;
        cbn [fst snd].
      * split; [exact Hv |]. exists cp, resp. auto.
      * right. split; [exact Hv |]. exists cp. auto.
Qed.

(** Along every run of the life cycle from the fields [f]: an object
    that exists holds exactly the fields of [f], which are valid; at most
    one HTTP call is issued, and it is the GET to the events URL with the
    query parameters of [f]; a parsed result is the parse of the response
    the transport gave to that call. *)
Theorem life_cycle_issues_at_most_one_get (EVENTS_value : string)
    (perform_get : string -> gmap string pyval -> result Response)
    {EventRecord : Type} (EventResponse : pyjson -> EventRecord)
    (f : _EventsEndpoint) (issued : list http_call)
    (s : stage EventRecord) (issued' : list http_call) :
  rtc (step EVENTS_value perform_get EventRecord EventResponse)
      (Unbuilt f, issued) (s, issued') ->
  life_cycle_invariant EVENTS_value perform_get EventResponse f issued (s, issued') /\
  (issued' = issued \/
   exists cp, client_params f = Some cp /\ valid f /\
              issued' = (issued ++ [the_get EVENTS_value f cp])%list) /\
  (length issued' <= S (length issued))%nat.
Proof.
  intros Hreach. apply life_cycle_invariant_kept in Hreach.
  split; [exact Hreach |].
  assert (Hcalls : issued' = issued \/
            exists cp, client_params f = Some cp /\ valid f /\
                       issued' = (issued ++ [the_get EVENTS_value f cp])%list).
  { unfold life_cycle_invariant in Hreach. cbn [fst snd] in Hreach.
    destruct s as [g | self | self | events | e].
    - left. tauto.
    - left. tauto.
    - right. destruct Hreach as (Hv & cp & resp & Hcp & _ & _ & ->). exists cp. auto.
    - right. destruct Hreach as (Hv & cp & resp & Hcp & _ & _ & ->). exists cp. auto.
    - destruct Hreach as [-> | (Hv & cp & Hcp & ->)]; [now left | right].
      exists cp. auto. }
  split; [exact Hcalls |].
  destruct Hcalls as [-> | (cp & _ & _ & ->)].
  - lia.
  - rewrite length_app. cbn. lia.
Qed.

Lemma life_cycle_issues_at_most_one_get_witness :
  (length [the_get sample_events_url events_default {| offset := PInt 0; limit := PInt 1 |}]
   <= S (@length http_call []))%nat.
Proof.
  refine (proj2 (proj2 (life_cycle_issues_at_most_one_get sample_events_url
            (fun _ _ => Ok one_event_response) (fun j : pyjson => j)
            events_default []
            (Requested (set_http_response (fresh events_default) one_event_response))
            [the_get sample_events_url events_default {| offset := PInt 0; limit := PInt 1 |}]
            _))).
  eapply rtc_l; [apply step_construct |].
  eapply rtc_l; [apply step_request |].
  apply rtc_refl.
Defined.

(** A whole query: from valid fields with client parameters, when the
    transport answers the GET with a body whose [asset_events] is an
    array, the life cycle runs construction, request and parsing to the
    end, issues that one GET, and yields the parser's image of the array,
    in order. *)
Theorem valid_query_runs_to_parsed_events (EVENTS_value : string)
    (perform_get : string -> gmap string pyval -> result Response)
    {EventRecord : Type} (EventResponse : pyjson -> EventRecord)
    (f : _EventsEndpoint) (cp : _ClientParams) (resp : Response)
    (members : list (string * pyjson)) (items : list pyjson)
    (issued : list http_call) :
  valid f ->
  client_params f = Some cp ->
  perform_get EVENTS_value (request_params (fresh f) cp) = Ok resp ->
  body_json resp = Some (JDict members) ->
  assoc "asset_events" members = Some (JList items) ->
  rtc (step EVENTS_value perform_get EventRecord EventResponse)
      (Unbuilt f, issued)
      (Parsed (map EventResponse items),
       (issued ++ [the_get EVENTS_value f cp])%list).
Proof.
  intros Hv Hcp Hg Hb Hm.
  apply construct_ok_iff_valid in Hv.
  eapply rtc_l.
  { pose proof (step_construct EVENTS_value perform_get EventRecord EventResponse
                  f issued) as H.
    rewrite Hv in H. exact H. }
  eapply rtc_l.
  { pose proof (step_request EVENTS_value perform_get EventRecord EventResponse
                  (fresh f) issued) as H.
    unfold _get_request, super_get_request, url in H.
    change (client_params (fresh f)) with (client_params f) in H.
    rewrite Hcp, Hg in H. exact H. }
  eapply rtc_l; [|apply rtc_refl].
  pose proof (step_parse EVENTS_value perform_get EventRecord EventResponse
                (set_http_response (fresh f) resp)
                (issued ++ [the_get EVENTS_value f cp])%list) as H.
  unfold parsed_http_response, Response_json in H.
  cbn [_http_response set_http_response] in H. rewrite Hb in H. cbn in H.
  rewrite Hm in H. exact H.
Qed.

Lemma valid_query_runs_to_parsed_events_witness :
  rtc (step sample_events_url (fun _ _ => Ok one_event_response) pyjson (fun j => j))
      (Unbuilt events_default, [])
      (Parsed [JDict [("event_type", JStr "successful")]],
       [the_get sample_events_url events_default {| offset := PInt 0; limit := PInt 1 |}]).
Proof.
  apply (valid_query_runs_to_parsed_events sample_events_url
           (fun _ _ => Ok one_event_response) (fun j : pyjson => j)
           events_default {| offset := PInt 0; limit := PInt 1 |} one_event_response
           [("asset_events", JList [JDict [("event_type", JStr "successful")]])]
           [JDict [("event_type", JStr "successful")]] []
           events_default_valid eq_refl eq_refl eq_refl eq_refl).
Defined.

(** Validation does not look at client_params: valid fields without
    client parameters construct an object, and the failure comes with the
    request, as an AttributeError raised while the query parameters are
    built; no HTTP call is issued, by the request or anywhere in the life
    cycle. *)
Theorem request_without_client_params_fails_before_any_call (EVENTS_value : string)
    (perform_get : string -> gmap string pyval -> result Response)
    {EventRecord : Type} (EventResponse : pyjson -> EventRecord)
    (f : _EventsEndpoint) (issued : list http_call) :
  valid f -> client_params f = None ->
  construct f = Ok (fresh f) /\
  (exists e, _get_request EVENTS_value perform_get (fresh f) issued = (issued, Raise e) /\
             exn_kind_of e = AttributeError) /\
  (forall s issued',
     rtc (step EVENTS_value perform_get EventRecord EventResponse)
         (Unbuilt f, issued) (s, issued') ->
     issued' = issued /\ forall self, s <> Requested self) /\
  (exists e, exn_kind_of e = AttributeError /\
     rtc (step EVENTS_value perform_get EventRecord EventResponse)
         (Unbuilt f, issued) (Failed e, issued)).
Proof.
  intros Hv Hcp. apply construct_ok_iff_valid in Hv.
  assert (Hreq : _get_request EVENTS_value perform_get (fresh f) issued =
                 (issued, Raise (mk_exn AttributeError
                    [[FText "'NoneType' object has no attribute 'offset'"]]))).
  { unfold _get_request. change (client_params (fresh f)) with (client_params f).
    now rewrite Hcp. }
  split; [exact Hv | split; [eexists; split; [exact Hreq | reflexivity] | split]].
  - intros s issued' Hreach. apply life_cycle_invariant_kept in Hreach.
    unfold life_cycle_invariant in Hreach. cbn [fst snd] in Hreach.
    destruct s as [g | self | self | events | e].
    + split; [tauto | discriminate].
    + split; [tauto | discriminate].
    + destruct Hreach as (_ & cp & resp & Hcp' & _). congruence.
    + destruct Hreach as (_ & cp & resp & Hcp' & _). congruence.
    + destruct Hreach as [-> | (_ & cp & Hcp' & _)]; [|congruence].
      split; [reflexivity | discriminate].
  - exists (mk_exn AttributeError
              [[FText "'NoneType' object has no attribute 'offset'"]]).
    split; [reflexivity |].
    eapply rtc_l.
    { pose proof (step_construct EVENTS_value perform_get EventRecord EventResponse
                    f issued) as H.
      rewrite Hv in H. exact H. }
    eapply rtc_l; [|apply rtc_refl].
    pose proof (step_request EVENTS_value perform_get EventRecord EventResponse
                  (fresh f) issued) as H.
    rewrite Hreq in H. exact H.
Qed.

Lemma request_without_client_params_fails_before_any_call_witness :
  construct (with_client_params None events_default) =
  Ok (fresh (with_client_params None events_default)).
Proof.
  apply (request_without_client_params_fails_before_any_call sample_events_url
           (fun _ _ => Ok one_event_response) (fun j : pyjson => j)
           (with_client_params None events_default) []).
  - constructor; cbn.
    + left. reflexivity.
    + split; [exact I | exists SUCCESSFUL; reflexivity].
    + left. reflexivity.
    + left. reflexivity.
    + intros a b H. discriminate H.
  - reflexivity.
Defined.
